(** * ClockPoint backend: tokens, invitations and group roles

    A shallow embedding of [app/core/jwt.py], [app/models/token.py] and the
    token/group workflows of [app/routers/v1/endpoints/http/group.py] and
    [app/routers/v1/endpoints/http/user.py].

    Conventions of the model:
    - a [datetime] is an integer number of microseconds ([Z]); a [timedelta]
      is an integer number of microseconds as well;
    - the MongoDB collections are a [Store]; the requests run in a small
      state and exception monad [M] over it, and every database write may
      fail (fault injection through [st_fail_at]) the way a driver call can
      raise;
    - exceptions are [Exc]: an [HTTPException] carries the status code and
      the [detail] string of the [raise] site in the source; [Crash] is an
      unhandled Python exception (a 500). *)

From stdpp Require Import base gmap strings list.
From Stdlib Require Import ZArith String Ascii.

Open Scope Z_scope.

(* ------------------------------------------------------------------ *)
(** ** Enumerations *)

(** [app/models/enums/token_subject.py] (names as used in the source). *)
Inductive TokenSubject :=
| ACTIVATE
| RECOVER
| USER_INVITE
| GROUP_INVITE_MEMBER
| GROUP_INVITE_CO_OWNER.

#[global] Instance TokenSubject_eq_dec : EqDecision TokenSubject.
Proof. solve_decision. Defined.

(** [app/models/enums/group_role.py]. *)
Inductive GroupRole := OWNER | CO_OWNER | MEMBER.

#[global] Instance GroupRole_eq_dec : EqDecision GroupRole.
Proof. solve_decision. Defined.

(** [settings] of [app/core/config.py]: immutable process-wide values. *)
Record Settings := {
  SECRET_KEY : string;
  ALGORITHM : string;
  JWT_TOKEN_PREFIX : string;
  ACCESS_TOKEN_EXPIRE_MINUTES : Z;
  GROUP_INVITE_MEMBER_TOKEN_EXPIRE_MINUTES : Z;
  GROUP_INVITE_CO_OWNER_TOKEN_EXPIRE_MINUTES : Z;
  USER_INVITE_TOKEN_EXPIRE_MINUTES : Z
}.

Definition minutes (m : Z) : Z := m * 60 * 1000000.

(* ------------------------------------------------------------------ *)
(** ** Exceptions *)

Inductive JwtError := InvalidSignatureError | ExpiredSignatureError.

Inductive Exc :=
| HTTPException (status_code : Z) (detail : string)
| NotFound (what : string)   (* a repository lookup that finds nothing *)
| WriteError                 (* a failed database write *)
| Crash (name : string).     (* an unhandled Python exception *)

(* ------------------------------------------------------------------ *)
(** ** Header parsing ([get_token], [get_invitation_token]) *)

(** Python's [s.split(" ")]: split at every single space, keep empties. *)
Fixpoint split_space (s : string) : list string :=
  match s with
  | EmptyString => [""%string]
  | String c rest =>
      if Ascii.eqb c " "%char then ""%string :: split_space rest
      else match split_space rest with
           | w :: ws => String c w :: ws
           | [] => [String c ""]
           end
  end.

(** [prefix, token = header.split(" ")]: a [ValueError] unless there are
    exactly two pieces. *)
Definition unpack2 (s : string) : Exc + (string * string) :=
  match split_space s with
  | [p; t] => inr (p, t)
  | _ => inl (Crash "ValueError")
  end.

(** Truthiness of an [Optional[str]] header. *)
Definition truthy_str (o : option string) : bool :=
  match o with
  | Some s => negb (String.eqb s "")
  | None => false
  end.

Section Headers.
Context (settings : Settings).

Definition check_prefixed (header : string) (detail : string) : Exc + string :=
  match unpack2 header with
  | inl e => inl e
  | inr (prefix, token) =>
      if negb (String.eqb (JWT_TOKEN_PREFIX settings) prefix)
      then inl (HTTPException 403 detail)
      else inr token
  end.

(** [get_token(authorization, activation, recovery)]; a truthy header is
    a [Some], so [default ""] only unwraps it. *)
Definition get_token (authorization activation recovery : option string)
    : Exc + string :=
  if truthy_str authorization then
    check_prefixed (default ""%string authorization) "Invalid authorization"
  else if truthy_str activation then
    check_prefixed (default ""%string activation) "Invalid activation"
  else if truthy_str recovery then
    check_prefixed (default ""%string recovery) "Invalid recover"
  else inl (HTTPException 403 "Invalid header").

(** [get_invitation_token(invitation)]: [invitation.split(" ")] on the
    header value; an absent header is [None], and [None.split] raises
    [AttributeError]. *)
Definition get_invitation_token (invitation : option string) : Exc + string :=
  match invitation with
  | None => inl (Crash "AttributeError")
  | Some v => check_prefixed v "Invalid invitation"
  end.

End Headers.

(* ------------------------------------------------------------------ *)
(** ** Tokens ([app/core/jwt.py], [app/models/token.py]) *)

(** The claim dictionary built by [wrap_user_db_data_into_token]. *)
Record Claims := {
  c_email : string;
  c_username : string;
  c_group_id : option string;
  c_user_email_invited : option string
}.

(** A signed token. The wire string is represented by what it carries:
    the claims, the [exp] claim as a JWT NumericDate (whole seconds, the
    [timegm(exp.utctimetuple())] PyJWT applies to a [datetime]), the
    [subject], and the key and algorithm it was signed with (an idealised
    HMAC: only the holder of the key produces a token naming it). *)
Record Jwt := {
  jwt_claims : Claims;
  jwt_exp : Z;
  jwt_subject : TokenSubject;
  jwt_key : string;
  jwt_alg : string
}.

#[global] Instance Claims_eq_dec : EqDecision Claims.
Proof. solve_decision. Defined.
#[global] Instance Jwt_eq_dec : EqDecision Jwt.
Proof. solve_decision. Defined.

(** The decoded payload: the claims plus ["exp"] and ["subject"]. *)
Record Payload := {
  p_claims : Claims;
  p_exp : Z;
  p_subject : TokenSubject
}.

(** Whole seconds of a microsecond [datetime] ([utctimetuple] drops the
    microseconds). *)
Definition numeric_date (t : Z) : Z := t / 1000000.

(** [jwt.encode(to_encode, key, algorithm=alg)]. *)
Definition encode (c : Claims) (exp : Z) (s : TokenSubject) (key alg : string) : Jwt :=
  {| jwt_claims := c; jwt_exp := numeric_date exp; jwt_subject := s;
     jwt_key := key; jwt_alg := alg |}.

(** [jwt.decode(token, key, algorithms=algs)] at wall-clock time [now]
    (PyJWT 2.0: [now = timegm(datetime.utcnow().utctimetuple())], and
    [ExpiredSignatureError] when [exp < now - leeway], leeway 0). *)
Definition decode (tok : Jwt) (key : string) (algs : list string) (now : Z)
    : JwtError + Payload :=
  if negb (existsb (String.eqb (jwt_alg tok)) algs) then inl InvalidSignatureError
  else if negb (String.eqb (jwt_key tok) key) then inl InvalidSignatureError
  else if jwt_exp tok <? numeric_date now then inl ExpiredSignatureError
  else inr {| p_claims := jwt_claims tok; p_exp := jwt_exp tok;
              p_subject := jwt_subject tok |}.

(** The stored token document: [TokenDB] built from [to_encode] with [token],
    [created_at] and [expire_datetime], and the [used_at] field the
    workflows read and [update_token] writes. *)
Record TokenDB := {
  tdb_claims : Claims;
  tdb_subject : TokenSubject;
  tdb_token : Jwt;
  tdb_created_at : Z;
  tdb_expire_datetime : Z;
  tdb_used_at : option Z
}.

(* ------------------------------------------------------------------ *)
(** ** Users and groups *)

Record User := {
  u_email : string;
  u_username : string;
  u_is_active : bool;
  u_password : string
}.

(** [UserBase] built from a user's dict: the identity kept in a group. *)
Record UserBase := { ub_email : string; ub_username : string }.

Definition user_base (u : User) : UserBase :=
  {| ub_email := u_email u; ub_username := u_username u |}.

(** [UserTokenWrapper]: the user record and the token it came with. *)
Record UserTokenWrapper := { w_user : User; w_token : Jwt }.

Record Group := {
  g_name : string;
  g_owner : UserBase;
  g_co_owners : list UserBase;
  g_members : list UserBase
}.

(** Modelled from the spec: [GroupDB.user_is_owner], [user_is_co_owner]
    and [user_in_group] of [app/models/group.py] (not in the sources).
    A user is identified by the email, which is unique (spec, section 3);
    [user_in_group] is "holds any role". *)
Definition same_user (a b : UserBase) : bool := String.eqb (ub_email a) (ub_email b).

Definition user_is_owner (g : Group) (u : UserBase) : bool := same_user (g_owner g) u.

Definition user_is_co_owner (g : Group) (u : UserBase) : bool :=
  existsb (same_user u) (g_co_owners g).

Definition user_is_member (g : Group) (u : UserBase) : bool :=
  existsb (same_user u) (g_members g).

Definition user_in_group (g : Group) (u : UserBase) : bool :=
  user_is_owner g u || user_is_co_owner g u || user_is_member g u.

(** Modelled from the spec: the "add-as-role" and "remove" primitives of
    the Group Directory ([update_group], [leave_group] of
    [app/repositories/group.py], not in the sources). Co-owners and members
    are sets: adding a user already in that role leaves it as it is. *)
Definition add_to_role (l : list UserBase) (u : UserBase) : list UserBase :=
  if existsb (same_user u) l then l else l ++ [u].

(** [GroupUpdate(member=..)] or [GroupUpdate(co_owner=..)]. *)
Inductive GroupUpdate := AddMember (u : UserBase) | AddCoOwner (u : UserBase).

Definition apply_group_update (g : Group) (upd : GroupUpdate) : Group :=
  match upd with
  | AddMember u =>
      {| g_name := g_name g; g_owner := g_owner g; g_co_owners := g_co_owners g;
         g_members := add_to_role (g_members g) u |}
  | AddCoOwner u =>
      {| g_name := g_name g; g_owner := g_owner g;
         g_co_owners := add_to_role (g_co_owners g) u; g_members := g_members g |}
  end.

Definition remove_user (g : Group) (u : UserBase) : Group :=
  {| g_name := g_name g; g_owner := g_owner g;
     g_co_owners := List.filter (fun v => negb (same_user u v)) (g_co_owners g);
     g_members := List.filter (fun v => negb (same_user u v)) (g_members g) |}.

(* ------------------------------------------------------------------ *)
(** ** The database and the request monad *)

Record Store := {
  st_users : gmap string User;      (* users, keyed by their unique email *)
  st_groups : gmap string Group;    (* groups, keyed by their id *)
  st_tokens : list TokenDB;         (* the token collection *)
  st_clock : Z;                     (* [datetime.utcnow()] *)
  st_writes : nat;                  (* writes issued so far *)
  st_fail_at : option nat           (* the write with this number fails *)
}.

Definition M (A : Type) : Type := Store -> (Exc + A) * Store.

Definition ret {A} (a : A) : M A := fun s => (inr a, s).
Definition bind {A B} (m : M A) (k : A -> M B) : M B :=
  fun s => match m s with
           | (inl e, s') => (inl e, s')
           | (inr a, s') => k a s'
           end.
Definition raise {A} (e : Exc) : M A := fun s => (inl e, s).
Definition gets {A} (f : Store -> A) : M A := fun s => (inr (f s), s).
Definition lift {A} (r : Exc + A) : M A := fun s => (r, s).

Notation "x <- m ;; k" := (bind m (fun x => k))
  (at level 100, m at next level, right associativity).
Notation "m ;;; k" := (bind m (fun _ => k))
  (at level 100, right associativity).

Definition http403 {A} (detail : string) : M A := raise (HTTPException 403 detail).
Definition http404 {A} (detail : string) : M A := raise (HTTPException 404 detail).

Definition utcnow : M Z := gets st_clock.

Definition set_users (s : Store) (us : gmap string User) : Store :=
  {| st_users := us; st_groups := st_groups s; st_tokens := st_tokens s;
     st_clock := st_clock s; st_writes := st_writes s; st_fail_at := st_fail_at s |}.
Definition set_groups (s : Store) (gs : gmap string Group) : Store :=
  {| st_users := st_users s; st_groups := gs; st_tokens := st_tokens s;
     st_clock := st_clock s; st_writes := st_writes s; st_fail_at := st_fail_at s |}.
Definition set_tokens (s : Store) (ts : list TokenDB) : Store :=
  {| st_users := st_users s; st_groups := st_groups s; st_tokens := ts;
     st_clock := st_clock s; st_writes := st_writes s; st_fail_at := st_fail_at s |}.
Definition bump_writes (s : Store) : Store :=
  {| st_users := st_users s; st_groups := st_groups s; st_tokens := st_tokens s;
     st_clock := st_clock s; st_writes := S (st_writes s); st_fail_at := st_fail_at s |}.

(** One database write: write number [st_writes] fails when it is the
    injected fault, and then changes nothing. *)
Definition db_write (f : Store -> Store) : M unit :=
  fun s =>
    let fails := match st_fail_at s with
                 | Some k => Nat.eqb k (st_writes s)
                 | None => false
                 end in
    if fails then (inl WriteError, bump_writes s) else (inr tt, f (bump_writes s)).

(* ------------------------------------------------------------------ *)
(** ** Repositories *)

(** Modelled from the spec: [get_user_by_email] of
    [app/repositories/user.py] (User Directory [find_by_email]); a miss
    raises the 404 that [invite] of [group.py] catches by its detail. *)
Definition get_user_by_email (email : string) : M User :=
  us <- gets st_users ;;
  match us !! email with
  | Some u => ret u
  | None => http404 "This user doesn't exist"
  end.

(** Modelled from the spec: [get_group_by_id] (Group Directory
    [find_by_id]). *)
Definition get_group_by_id (gid : string) : M Group :=
  gs <- gets st_groups ;;
  match gs !! gid with
  | Some g => ret g
  | None => raise (NotFound "group")
  end.

(** Modelled from the spec: [get_token] of [app/repositories/token.py]:
    the stored record of a token string (Token Store). *)
Definition find_token (tok : Jwt) (ts : list TokenDB) : option TokenDB :=
  find (fun r => bool_decide (tdb_token r = tok)) ts.

Definition get_token_db (tok : Jwt) : M TokenDB :=
  ts <- gets st_tokens ;;
  match find_token tok ts with
  | Some r => ret r
  | None => raise (NotFound "token")
  end.

(** Modelled from the spec: [save_token] appends a record. *)
Definition save_token (r : TokenDB) : M unit :=
  db_write (fun s => set_tokens s (st_tokens s ++ [r])).

(** Modelled from the spec: [update_token(TokenUpdate(token, used_at))]
    sets [used_at] on the records of that token string. *)
Definition mark_used (tok : Jwt) (t : Z) (r : TokenDB) : TokenDB :=
  if bool_decide (tdb_token r = tok) then
    {| tdb_claims := tdb_claims r; tdb_subject := tdb_subject r;
       tdb_token := tdb_token r; tdb_created_at := tdb_created_at r;
       tdb_expire_datetime := tdb_expire_datetime r; tdb_used_at := Some t |}
  else r.

Definition update_token (tok : Jwt) (used_at : Z) : M unit :=
  db_write (fun s => set_tokens s (map (mark_used tok used_at) (st_tokens s))).

(** Modelled from the spec: [update_group] (add-as-role). *)
Definition update_group (gid : string) (g : Group) (upd : GroupUpdate) : M Group :=
  let g' := apply_group_update g upd in
  db_write (fun s => set_groups s (<[gid := g']> (st_groups s))) ;;; ret g'.

(** Modelled from the spec: [leave_group] (remove). *)
Definition leave_group (gid : string) (g : Group) (u : UserBase) : M unit :=
  db_write (fun s => set_groups s (<[gid := remove_user g u]> (st_groups s))).

(** Modelled from the spec: [update_user] with [is_active=True] or a new
    password. *)
Inductive UserUpdate := SetActive | SetPassword (p : string).

Definition apply_user_update (u : User) (upd : UserUpdate) : User :=
  match upd with
  | SetActive => {| u_email := u_email u; u_username := u_username u;
                    u_is_active := true; u_password := u_password u |}
  | SetPassword p => {| u_email := u_email u; u_username := u_username u;
                        u_is_active := u_is_active u; u_password := p |}
  end.

Definition update_user (u : User) (upd : UserUpdate) : M User :=
  let u' := apply_user_update u upd in
  db_write (fun s => set_users s (<[u_email u := u']> (st_users s))) ;;; ret u'.

Definition try_catch {A} (m : M A) (h : Exc -> M A) : M A :=
  fun s => match m s with
           | (inl e, s') => h e s'
           | r => r
           end.

(* ------------------------------------------------------------------ *)
(** ** Workflows *)

Inductive GenericStatus := RUNNING | COMPLETED.

Record GroupInvite := { gi_group_id : string; gi_email : string; gi_role : GroupRole }.
Record GroupKick := { gk_id : string; gk_email : string }.

(** Truthiness of an [Optional[datetime]]: every [datetime] is truthy. *)
Definition truthy_dt (o : option Z) : bool :=
  match o with Some _ => true | None => false end.

Definition is_invitation (s : TokenSubject) : bool :=
  match s with
  | GROUP_INVITE_CO_OWNER | GROUP_INVITE_MEMBER | USER_INVITE => true
  | ACTIVATE | RECOVER => false
  end.

Section Workflows.
Context (settings : Settings).

(** [TokenUtils.create_token(data=.., expires_delta=.., subject=..)];
    [None] is an omitted [expires_delta], and a [timedelta] is truthy
    when it is not zero. *)
Definition create_token (data : Claims) (expires_delta : option Z)
    (subject : TokenSubject) : M Jwt :=
  t0 <- utcnow ;;
  expire_datetime <-
    match expires_delta with
    | Some d => if negb (d =? 0) then (t1 <- utcnow ;; ret (t1 + d))
                else ret (t0 + minutes 10)
    | None => ret (t0 + minutes 10)
    end ;;
  let encoded_jwt := encode data expire_datetime subject
                       (SECRET_KEY settings) (ALGORITHM settings) in
  created_at <- utcnow ;;
  save_token {| tdb_claims := data; tdb_subject := subject; tdb_token := encoded_jwt;
                tdb_created_at := created_at; tdb_expire_datetime := expire_datetime;
                tdb_used_at := None |} ;;;
  ret encoded_jwt.

(** [TokenUtils.wrap_user_db_data_into_token]. *)
Definition wrap_user_db_data_into_token (user_db : User) (subject : TokenSubject)
    (group_id user_email_invited : option string) (token_expires_delta : Z) : M Jwt :=
  create_token {| c_email := u_email user_db; c_username := u_username user_db;
                  c_group_id := group_id; c_user_email_invited := user_email_invited |}
               (Some token_expires_delta) subject.

(** [get_current_user(conn, token)]. *)
Definition get_current_user (token : Jwt) : M UserTokenWrapper :=
  now <- utcnow ;;
  match decode token (SECRET_KEY settings) [ALGORITHM settings] now with
  | inl _ => http403 "Could not validate credentials"
  | inr payload =>
      user_db <- get_user_by_email (c_email (p_claims payload)) ;;
      ret {| w_user := user_db; w_token := token |}
  end.

(** [get_user_from_invitation(conn, token)]. The lookup is by
    [token_data.user_email_invited]; a [None] email matches no user. *)
Definition get_user_from_invitation (token : Jwt) : M UserTokenWrapper :=
  now <- utcnow ;;
  match decode token (SECRET_KEY settings) [ALGORITHM settings] now with
  | inl _ => http403 "Could not validate invitation"
  | inr payload =>
      if negb (is_invitation (p_subject payload))
      then http403 "This is not an invitation token"
      else match c_user_email_invited (p_claims payload) with
           | Some e =>
               user_db <- get_user_by_email e ;;
               ret {| w_user := user_db; w_token := token |}
           | None => http404 "This user doesn't exist"
           end
  end.

(** Modelled from the spec: [process_invitation] of [app/utils/group.py]
    (not in the sources) issues the group-invite token bound to the target
    email and the group id with the role's expiry; the e-mail is a
    background task with no effect here. *)
Definition process_invitation (gid : string) (gi : GroupInvite) (user_invited : User)
    (subject : TokenSubject) (expire_minutes : Z) : M unit :=
  _ <- wrap_user_db_data_into_token user_invited subject (Some gid)
         (Some (gi_email gi)) (minutes expire_minutes) ;;
  ret tt.

(** The placeholder [UserDB(email=.., first_name="", last_name="",
    username="")] of [invite]. *)
Definition mock_user (email : string) : User :=
  {| u_email := email; u_username := ""; u_is_active := false; u_password := "" |}.

(** [invite] of [group.py]. *)
Definition invite (group_invite : GroupInvite) (user_current : UserTokenWrapper)
    : M GenericStatus :=
  group_db <- get_group_by_id (gi_group_id group_invite) ;;
  let user_inviting := user_base (w_user user_current) in
  if user_is_owner group_db user_inviting || user_is_co_owner group_db user_inviting then
    if bool_decide (gi_role group_invite = OWNER) then http403 "Owner role is unique"
    else
      user_invited <-
        try_catch (get_user_by_email (gi_email group_invite))
          (fun exc => match exc with
                      | HTTPException c d =>
                          if (c =? 404) && String.eqb d "This user doesn't exist"
                          then ret (mock_user (gi_email group_invite))
                          else raise exc
                      | _ => raise exc
                      end) ;;
      if user_in_group group_db (user_base user_invited) then
        http403 "User already in group"
      else
        (if bool_decide (gi_role group_invite = CO_OWNER) then
           if user_is_co_owner group_db user_inviting then
             http403 "User is not allowed to invite another co-owner"
           else process_invitation (gi_group_id group_invite) group_invite user_invited
                  GROUP_INVITE_CO_OWNER (GROUP_INVITE_CO_OWNER_TOKEN_EXPIRE_MINUTES settings)
         else ret tt) ;;;
        (if bool_decide (gi_role group_invite = MEMBER) then
           process_invitation (gi_group_id group_invite) group_invite user_invited
             GROUP_INVITE_MEMBER (GROUP_INVITE_MEMBER_TOKEN_EXPIRE_MINUTES settings)
         else ret tt) ;;;
        ret RUNNING
  else http403 "User is not allowed to invite".

(** [join] of [group.py]: membership update, then token consumption. *)
Definition join (user_invitation user_current : UserTokenWrapper) : M (Group * string) :=
  if String.eqb (u_email (w_user user_current)) (u_email (w_user user_invitation)) then
    token_db <- get_token_db (w_token user_invitation) ;;
    if truthy_dt (tdb_used_at token_db) then http403 "Invitation token already used"
    else
      match c_group_id (tdb_claims token_db) with
      | None => raise (NotFound "group")
      | Some group_db_id =>
          group_db <- get_group_by_id group_db_id ;;
          let ub := user_base (w_user user_current) in
          let group_update :=
            if bool_decide (tdb_subject token_db = GROUP_INVITE_CO_OWNER)
            then AddCoOwner ub else AddMember ub in
          group_db_updated <- update_group group_db_id group_db group_update ;;
          now <- utcnow ;;
          update_token (tdb_token token_db) now ;;;
          ret (group_db_updated, group_db_id)
      end
  else http403 "This user was not invited".

(** [kick] of [group.py]. *)
Definition kick (group_kick : GroupKick) (user_current : UserTokenWrapper)
    : M GenericStatus :=
  group_db <- get_group_by_id (gk_id group_kick) ;;
  let ub := user_base (w_user user_current) in
  if user_in_group group_db ub then
    let user_base_is_owner := user_is_owner group_db ub in
    let user_base_is_co_owner := user_is_co_owner group_db ub in
    if user_base_is_owner || user_base_is_co_owner then
      user_kick_db <- get_user_by_email (gk_email group_kick) ;;
      let user_kick := user_base user_kick_db in
      if user_in_group group_db user_kick then
        if user_is_owner group_db user_kick then
          http403 "Owner of the group can't be kicked"
        else if user_is_co_owner group_db user_kick && user_base_is_co_owner then
          http403 "Co-owner is not allowed to kick other co-owner"
        else
          leave_group (gk_id group_kick) group_db user_kick ;;;
          ret COMPLETED
      else http403 "User is not in the group"
    else http403 "User is not allowed to kick other members"
  else http403 "Current user is not part of the group".

(** [activate] of [user.py]. *)
Definition activate (user_current : UserTokenWrapper) : M User :=
  token_db <- get_token_db (w_token user_current) ;;
  if bool_decide (tdb_subject token_db = ACTIVATE) then
    if negb (truthy_dt (tdb_used_at token_db)) then
      user_db <- update_user (w_user user_current) SetActive ;;
      now <- utcnow ;;
      update_token (tdb_token token_db) now ;;;
      ret user_db
    else http403 "Token has expired"
  else http403 "Invalid activation".

(** [change_password] of [user.py]. *)
Definition change_password (user_current : UserTokenWrapper) (password : string) : M User :=
  token_db <- get_token_db (w_token user_current) ;;
  if bool_decide (tdb_subject token_db = RECOVER) then
    if negb (truthy_dt (tdb_used_at token_db)) then
      user_db <- update_user (w_user user_current) (SetPassword password) ;;
      now <- utcnow ;;
      update_token (tdb_token token_db) now ;;;
      ret user_db
    else http403 "Token has expired"
  else http403 "Invalid recovery".

(** [join_via_invitation] of [user.py]. *)
Definition join_via_invitation (user_invitation user_current : UserTokenWrapper) : M User :=
  token_db <- get_token_db (w_token user_invitation) ;;
  if negb (truthy_dt (tdb_used_at token_db)) then
    if bool_decide (Some (u_email (w_user user_current))
                    = c_user_email_invited (tdb_claims token_db)) then
      now <- utcnow ;;
      update_token (tdb_token token_db) now ;;;
      ret (w_user user_current)
    else http403 "This user was not invited"
  else http403 "Invitation token already used".

(** The [/group/join] request: FastAPI resolves [user_invitation] (from
    the invitation header) and then [user_current] (from the
    authorization header) before the handler runs. *)
Definition join_request (invitation_token current_token : Jwt) : M (Group * string) :=
  user_invitation <- get_user_from_invitation invitation_token ;;
  user_current <- get_current_user current_token ;;
  join user_invitation user_current.

(** [leave] of [group.py]. *)
Definition leave (group_id : string) (user_current : UserTokenWrapper) : M GenericStatus :=
  group_db <- get_group_by_id group_id ;;
  let ub := user_base (w_user user_current) in
  if user_in_group group_db ub then
    leave_group group_id group_db ub ;;; ret COMPLETED
  else http403 "User is not in the group".

(** [recover] of [user.py] (the user-agent parsing only feeds the
    e-mail). *)
Definition recover (email username : string) : M GenericStatus :=
  user_db <- get_user_by_email email ;;
  if String.eqb (u_username user_db) username then
    _ <- wrap_user_db_data_into_token user_db RECOVER None None (minutes (60 * 24 * 1)) ;;
    ret RUNNING
  else http404 "This user doesn't exist".

(** [invite_user] of [user.py]: the [try] body always raises; the
    [except StarletteHTTPException] re-raises "This user already exist"
    and otherwise issues the USER_INVITE token. *)
Definition invite_user (email_invited : string) (user_current : UserTokenWrapper)
    : M GenericStatus :=
  try_catch (get_user_by_email email_invited ;;; http403 "This user already exist")
    (fun exc =>
       match exc with
       | HTTPException c d =>
           if (c =? 403) && String.eqb d "This user already exist" then raise exc
           else
             _ <- wrap_user_db_data_into_token (w_user user_current) USER_INVITE None
                    (Some email_invited) (minutes (USER_INVITE_TOKEN_EXPIRE_MINUTES settings)) ;;
             ret RUNNING
       | _ => raise exc
       end).

(** The requests of the token and group workflows, each with its
    FastAPI dependencies resolved first. (The remaining routes, group
    creation and the user profile ones, do not touch the token
    collection.) *)
Inductive Request :=
| RqInvite (gi : GroupInvite) (current : Jwt)
| RqJoin (invitation current : Jwt)
| RqLeave (group_id : string) (current : Jwt)
| RqKick (gk : GroupKick) (current : Jwt)
| RqActivate (current : Jwt)
| RqPassword (current : Jwt) (password : string)
| RqRecover (email username : string)
| RqInviteUser (email_invited : string) (current : Jwt)
| RqJoinUser (invitation current : Jwt).

Definition run_request (rq : Request) : M unit :=
  match rq with
  | RqInvite gi cur =>
      uc <- get_current_user cur ;; _ <- invite gi uc ;; ret tt
  | RqJoin inv cur => _ <- join_request inv cur ;; ret tt
  | RqLeave gid cur =>
      uc <- get_current_user cur ;; _ <- leave gid uc ;; ret tt
  | RqKick gk cur =>
      uc <- get_current_user cur ;; _ <- kick gk uc ;; ret tt
  | RqActivate cur =>
      uc <- get_current_user cur ;; _ <- activate uc ;; ret tt
  | RqPassword cur p =>
      uc <- get_current_user cur ;; _ <- change_password uc p ;; ret tt
  | RqRecover e n => _ <- recover e n ;; ret tt
  | RqInviteUser e cur =>
      uc <- get_current_user cur ;; _ <- invite_user e uc ;; ret tt
  | RqJoinUser inv cur =>
      ui <- get_user_from_invitation inv ;; uc <- get_current_user cur ;;
      _ <- join_via_invitation ui uc ;; ret tt
  end.

End Workflows.

(* ------------------------------------------------------------------ *)
(** ** Sample configuration and database *)

Module Sample.

Definition cfg : Settings :=
  {| SECRET_KEY := "s3cr3t"; ALGORITHM := "HS256"; JWT_TOKEN_PREFIX := "Token";
     ACCESS_TOKEN_EXPIRE_MINUTES := 60;
     GROUP_INVITE_MEMBER_TOKEN_EXPIRE_MINUTES := 1440;
     GROUP_INVITE_CO_OWNER_TOKEN_EXPIRE_MINUTES := 1440;
     USER_INVITE_TOKEN_EXPIRE_MINUTES := 1440 |}.

Definition mk_user (email username : string) : User :=
  {| u_email := email; u_username := username; u_is_active := true; u_password := "pw" |}.

Definition alice := mk_user "alice@x.io" "alice".   (* owner of g1 *)
Definition bob := mk_user "bob@x.io" "bob".         (* co-owner of g1 *)
Definition carol := mk_user "carol@x.io" "carol".   (* member of g1 *)
Definition dave := mk_user "dave@x.io" "dave".      (* registered, not in g1 *)

Definition g1 : Group :=
  {| g_name := "team"; g_owner := user_base alice;
     g_co_owners := [user_base bob]; g_members := [user_base carol] |}.

(** 2021-01-01T00:00:00.250 in microseconds. *)
Definition t0 : Z := 1609459200250000.

Definition s0 : Store :=
  {| st_users := list_to_map [("alice@x.io", alice); ("bob@x.io", bob);
                              ("carol@x.io", carol); ("dave@x.io", dave)];
     st_groups := {[ "g1" := g1 ]};
     st_tokens := []; st_clock := t0; st_writes := 0; st_fail_at := None |}.

(** A session token of a user, as the login route would issue it. *)
Definition session (u : User) : Jwt :=
  encode {| c_email := u_email u; c_username := u_username u;
            c_group_id := None; c_user_email_invited := None |}
         (t0 + minutes 60) ACTIVATE (SECRET_KEY cfg) (ALGORITHM cfg).

Definition wrapper (u : User) : UserTokenWrapper := {| w_user := u; w_token := session u |}.

(** The token [invite] issues for [email] into "g1". *)
Definition invite_token (u : User) (email : string) (subject : TokenSubject) : Jwt :=
  encode {| c_email := u_email u; c_username := u_username u;
            c_group_id := Some "g1"; c_user_email_invited := Some email |}
         (t0 + minutes 1440) subject (SECRET_KEY cfg) (ALGORITHM cfg).

Definition with_fault (s : Store) (n : option nat) : Store :=
  {| st_users := st_users s; st_groups := st_groups s; st_tokens := st_tokens s;
     st_clock := st_clock s; st_writes := st_writes s; st_fail_at := n |}.

Definition group_in (s : Store) : option Group := st_groups s !! "g1".

End Sample.

(* ------------------------------------------------------------------ *)
(** ** Reading the results *)

(** The number of roles [u] holds in [g]. *)
Definition role_count (g : Group) (u : UserBase) : nat :=
  (if user_is_owner g u then 1 else 0)%nat
  + List.length (List.filter (same_user u) (g_co_owners g))
  + List.length (List.filter (same_user u) (g_members g)).

Definition succeeded {E A} (r : E + A) : bool :=
  match r with inr _ => true | inl _ => false end.

Module Scenario.
Import Sample.

Definition invite_dave (role : GroupRole) : GroupInvite :=
  {| gi_group_id := "g1"; gi_email := "dave@x.io"; gi_role := role |}.

(** Alice invites Dave as a member. *)
Definition s_inv1 : Store := snd (invite cfg (invite_dave MEMBER) (wrapper alice) s0).
(** ... and, before Dave answers, as a co-owner. *)
Definition s_inv2 : Store := snd (invite cfg (invite_dave CO_OWNER) (wrapper alice) s_inv1).

Definition tok_member : Jwt := invite_token dave "dave@x.io" GROUP_INVITE_MEMBER.
Definition tok_co_owner : Jwt := invite_token dave "dave@x.io" GROUP_INVITE_CO_OWNER.

Definition dave_claims : Claims :=
  {| c_email := "dave@x.io"; c_username := "dave"; c_group_id := None;
     c_user_email_invited := None |}.

End Scenario.

(** The user [invite] works with: the registered user of that email, or
    the placeholder when the lookup raises "This user doesn't exist". *)
Definition invited_user (s : Store) (email : string) : User :=
  match st_users s !! email with
  | Some u => u
  | None => mock_user email
  end.

(** The subject of the token [invite] issues for a (non-owner) role. *)
Definition invite_subject (r : GroupRole) : TokenSubject :=
  match r with
  | CO_OWNER => GROUP_INVITE_CO_OWNER
  | OWNER | MEMBER => GROUP_INVITE_MEMBER
  end.

(* ------------------------------------------------------------------ *)
(** ** Runs of the server *)

Definition with_env (s : Store) (clock : Z) (fail_at : option nat) : Store :=
  {| st_users := st_users s; st_groups := st_groups s; st_tokens := st_tokens s;
     st_clock := clock; st_writes := st_writes s; st_fail_at := fail_at |}.

(** The stores a run of requests leads to; between requests the clock
    moves forward and the next failing write may change. *)
Inductive reachable (settings : Settings) : Store -> Store -> Prop :=
| reach_refl s : reachable settings s s
| reach_request s s' rq :
    reachable settings s s' -> reachable settings s (snd (run_request settings rq s'))
| reach_env s s' clock fail_at :
    reachable settings s s' -> st_clock s' <= clock ->
    reachable settings s (with_env s' clock fail_at).

(** Token [t] is consumed: its record (the one [get_token] finds) has
    subject [subject] and a truthy [used_at]. *)
Definition consumed_as (t : Jwt) (subject : TokenSubject) (s : Store) : Prop :=
  exists r, find_token t (st_tokens s) = Some r /\ tdb_subject r = subject /\
            truthy_dt (tdb_used_at r) = true.

Definition token_mono (s s' : Store) : Prop :=
  forall t subject, consumed_as t subject s -> consumed_as t subject s'.

Definition preserves {A} (m : M A) : Prop := forall s, token_mono s (snd (m s)).

(* ------------------------------------------------------------------ *)
(** ** The remaining token and group routes *)



(** The number of spaces in a header value. *)
Fixpoint count_spaces (s : string) : nat :=
  match s with
  | EmptyString => 0%nat
  | String c rest => ((if Ascii.eqb c " "%char then 1 else 0) + count_spaces rest)%nat
  end.

(** How the stored data may change between a store and a later one. A
    token record keeps everything but [used_at], and a set [used_at] stays
    set; new records come after the old ones. *)
Definition rec_le (r r' : TokenDB) : Prop :=
  tdb_claims r' = tdb_claims r /\ tdb_subject r' = tdb_subject r /\
  tdb_token r' = tdb_token r /\ tdb_created_at r' = tdb_created_at r /\
  tdb_expire_datetime r' = tdb_expire_datetime r /\
  (truthy_dt (tdb_used_at r) = true -> truthy_dt (tdb_used_at r') = true).

Definition tokens_grow (s s' : Store) : Prop :=
  exists l1 l2, st_tokens s' = l1 ++ l2 /\ Forall2 rec_le (st_tokens s) l1.

(** Every group is still there, with the same owner. *)
Definition groups_kept (s s' : Store) : Prop :=
  forall gid g, st_groups s !! gid = Some g ->
  exists g', st_groups s' !! gid = Some g' /\ g_owner g' = g_owner g.

(** Every registered email is still registered. *)
Definition users_kept (s s' : Store) : Prop :=
  forall e, is_Some (st_users s !! e) -> is_Some (st_users s' !! e).

Definition evolves (s s' : Store) : Prop :=
  tokens_grow s s' /\ groups_kept s s' /\ users_kept s s'.

(** A computation that leaves the store as it is. *)
Definition read_only {A} (m : M A) : Prop := forall s, snd (m s) = s.

(** Stores holding one issued token, and that token's record. *)
Module Issued.
Import Sample Scenario.

Definition r_act : TokenDB :=
  {| tdb_claims := dave_claims; tdb_subject := ACTIVATE; tdb_token := session dave;
     tdb_created_at := t0; tdb_expire_datetime := t0 + minutes 60; tdb_used_at := None |}.
Definition s_act : Store := snd (create_token cfg dave_claims (Some (minutes 60)) ACTIVATE s0).

Definition tok_rec : Jwt :=
  encode dave_claims (t0 + minutes 60) RECOVER (SECRET_KEY cfg) (ALGORITHM cfg).
Definition r_rec : TokenDB :=
  {| tdb_claims := dave_claims; tdb_subject := RECOVER; tdb_token := tok_rec;
     tdb_created_at := t0; tdb_expire_datetime := t0 + minutes 60; tdb_used_at := None |}.
Definition s_rec : Store := snd (create_token cfg dave_claims (Some (minutes 60)) RECOVER s0).

(** The record [invite] stores for Dave's member invitation. *)
Definition r_member : TokenDB :=
  {| tdb_claims := {| c_email := "dave@x.io"; c_username := "dave"; c_group_id := Some "g1";
                      c_user_email_invited := Some "dave@x.io" |};
     tdb_subject := GROUP_INVITE_MEMBER; tdb_token := tok_member;
     tdb_created_at := t0; tdb_expire_datetime := t0 + minutes 1440; tdb_used_at := None |}.

End Issued.

Example sample_split : split_space "Token abc" = ["Token"%string; "abc"%string].
Proof. reflexivity. Qed.

Example sample_invite_member :
  fst (invite Sample.cfg {| gi_group_id := "g1"; gi_email := "dave@x.io"; gi_role := MEMBER |}
         (Sample.wrapper Sample.alice) Sample.s0) = inr RUNNING.
Proof. vm_compute. reflexivity. Qed.

(* ------------------------------------------------------------------ *)
(** ** Claims settled on concrete inputs *)

Import Sample Scenario.

(** C1 (group join is not atomic). With a write failure on the token
    update of [/group/join], the membership write has already happened:
    Dave is in the group, the invitation token is still unconsumed, and a
    second join with the same token goes through. *)
Theorem join_fault_grants_membership_keeps_token :
  let '(r, s) := join_request cfg tok_member (session dave) (with_fault s_inv1 (Some 2%nat)) in
  r = inl WriteError /\
  option_map (fun g => user_in_group g (user_base dave)) (group_in s) = Some true /\
  option_map tdb_used_at (find_token tok_member (st_tokens s)) = Some None /\
  succeeded (fst (join_request cfg tok_member (session dave) (with_fault s None))) = true.
Proof. vm_compute. repeat split; reflexivity. Qed.

(** C3 (re-adding a present user). Dave holds two outstanding invitations
    (member, co-owner). Joining with the first makes him a member; [join]
    does not check [user_in_group], so joining with the second adds him
    again, now as co-owner: he then holds two roles in the group. *)
Theorem join_readds_present_user :
  let '(r1, s1) := join_request cfg tok_member (session dave) s_inv2 in
  let '(r2, s2) := join_request cfg tok_co_owner (session dave) s1 in
  succeeded r1 = true /\
  option_map (fun g => user_in_group g (user_base dave)) (group_in s1) = Some true /\
  succeeded r2 = true /\
  option_map (fun g => role_count g (user_base dave)) (group_in s2) = Some 2%nat.
Proof. vm_compute. repeat split; reflexivity. Qed.

(** C4 (counterexample). Bob, a co-owner, invites Carol, already a
    member, with role CO_OWNER: the rejection is "User already in group"
    (AlreadyInGroup), not a NotAuthorized one, because the in-group check
    runs before the co-owner check. *)
Theorem invite_co_owner_by_co_owner_already_in_group :
  fst (invite cfg {| gi_group_id := "g1"; gi_email := "carol@x.io"; gi_role := CO_OWNER |}
         (wrapper bob) s0)
  = inl (HTTPException 403 "User already in group").
Proof. vm_compute. reflexivity. Qed.

(** C5 (counterexample). Alice, the owner, kicks an email no user has:
    the target lookup raises "This user doesn't exist" (404), not the
    NotInGroup rejection "User is not in the group". *)
Theorem kick_unregistered_target :
  user_in_group g1 {| ub_email := "nobody@x.io"; ub_username := "" |} = false /\
  fst (kick {| gk_id := "g1"; gk_email := "nobody@x.io" |} (wrapper alice) s0)
  = inl (HTTPException 404 "This user doesn't exist").
Proof. vm_compute. split; reflexivity. Qed.

(** C6 (counterexample). A token issued with a zero [timedelta] gets the
    10-minute default ([if expires_delta:] is false for a zero delta) and
    verifies at the instant it was issued. *)
Theorem zero_ttl_token_verifies :
  fst (create_token cfg dave_claims (Some 0) ACTIVATE s0)
  = inr (encode dave_claims (t0 + minutes 10) ACTIVATE (SECRET_KEY cfg) (ALGORITHM cfg)) /\
  decode (encode dave_claims (t0 + minutes 10) ACTIVATE (SECRET_KEY cfg) (ALGORITHM cfg))
         (SECRET_KEY cfg) [ALGORITHM cfg] t0
  = inr {| p_claims := dave_claims; p_exp := numeric_date (t0 + minutes 10);
           p_subject := ACTIVATE |}.
Proof. vm_compute. split; reflexivity. Qed.

(** A negative delta shorter than a second can land in the current
    second of the [exp] NumericDate: issued at 0.25 s past a second with
    a delta of -0.2 s, the token still verifies at issuance. *)
Lemma subsecond_negative_ttl_verifies :
  fst (create_token cfg dave_claims (Some (-200000)) ACTIVATE s0)
  = inr (encode dave_claims (t0 - 200000) ACTIVATE (SECRET_KEY cfg) (ALGORITHM cfg)) /\
  succeeded (decode (encode dave_claims (t0 - 200000) ACTIVATE (SECRET_KEY cfg) (ALGORITHM cfg))
                    (SECRET_KEY cfg) [ALGORITHM cfg] t0) = true.
Proof. vm_compute. split; reflexivity. Qed.

(** C8 (missing invitation header). With no credential header at all,
    [get_token] rejects with the structured 403 "Invalid header"; with no
    invitation header, [get_invitation_token] calls [None.split] and
    crashes with [AttributeError]. *)
Theorem missing_invitation_header_crashes :
  get_token cfg None None None = inl (HTTPException 403 "Invalid header") /\
  get_invitation_token cfg None = inl (Crash "AttributeError").
Proof. split; reflexivity. Qed.

(* ------------------------------------------------------------------ *)
(** ** Issuing and verifying tokens *)

Lemma numeric_date_mono (a b : Z) : a <= b -> numeric_date a <= numeric_date b.
Proof. intros H. unfold numeric_date. apply Z.div_le_mono; lia. Qed.

(** What [create_token] returns when it returns: the token signed over
    the claims, the subject and [utcnow() + expires_delta] for a nonzero
    delta. *)
Lemma create_token_result (settings : Settings) (c : Claims) (d : Z)
    (subject : TokenSubject) (s s' : Store) (tok : Jwt) :
  d <> 0 ->
  create_token settings c (Some d) subject s = (inr tok, s') ->
  tok = encode c (st_clock s + d) subject (SECRET_KEY settings) (ALGORITHM settings).
Proof.
  intros Hd Hc.
  unfold create_token, bind, utcnow, gets, ret, save_token, db_write in Hc.
  cbn -[encode] in Hc.
  destruct (Z.eqb_spec d 0) as [E | _]; [contradiction |]. cbn -[encode] in Hc.
  destruct (match st_fail_at s with Some k => Nat.eqb k (st_writes s) | None => false end);
    cbn -[encode] in Hc; [discriminate |].
  injection Hc as <- _. reflexivity.
Qed.

Lemma decode_own_token (settings : Settings) (c : Claims) (e : Z)
    (subject : TokenSubject) (t : Z) :
  decode (encode c e subject (SECRET_KEY settings) (ALGORITHM settings))
         (SECRET_KEY settings) [ALGORITHM settings] t
  = if numeric_date e <? numeric_date t then inl ExpiredSignatureError
    else inr {| p_claims := c; p_exp := numeric_date e; p_subject := subject |}.
Proof. unfold decode, encode. cbn. rewrite !String.eqb_refl. reflexivity. Qed.

(** C9 (issue-then-verify round trip). When [create_token] returns a
    token for a positive delta [ttl], decoding it with the server key at
    any time before [utcnow() + ttl] succeeds and yields exactly the claims
    and the subject it was issued with (and the [exp] NumericDate). *)
Theorem issue_then_verify (settings : Settings) (c : Claims) (subject : TokenSubject)
    (ttl : Z) (s s' : Store) (tok : Jwt) (t : Z)
    (Httl : 0 < ttl)
    (Hissue : create_token settings c (Some ttl) subject s = (inr tok, s'))
    (Hbefore : t < st_clock s + ttl) :
  decode tok (SECRET_KEY settings) [ALGORITHM settings] t
  = inr {| p_claims := c; p_exp := numeric_date (st_clock s + ttl); p_subject := subject |}.
Proof.
  apply create_token_result in Hissue; [| lia]. subst tok.
  rewrite decode_own_token.
  destruct (Z.ltb_spec (numeric_date (st_clock s + ttl)) (numeric_date t)) as [Hlt | _];
    [| reflexivity].
  pose proof (numeric_date_mono t (st_clock s + ttl) ltac:(lia)). lia.
Qed.

Lemma issue_then_verify_witness :
  create_token cfg dave_claims (Some (minutes 60)) ACTIVATE s0
  = (inr (session dave), snd (create_token cfg dave_claims (Some (minutes 60)) ACTIVATE s0)) /\
  decode (session dave) (SECRET_KEY cfg) [ALGORITHM cfg] (t0 + minutes 30)
  = inr {| p_claims := dave_claims; p_exp := numeric_date (st_clock s0 + minutes 60);
           p_subject := ACTIVATE |}.
Proof.
  assert (H : create_token cfg dave_claims (Some (minutes 60)) ACTIVATE s0
              = (inr (session dave),
                 snd (create_token cfg dave_claims (Some (minutes 60)) ACTIVATE s0)))
    by (vm_compute; reflexivity).
  split; [exact H |].
  apply (issue_then_verify cfg dave_claims ACTIVATE (minutes 60) s0
           (snd (create_token cfg dave_claims (Some (minutes 60)) ACTIVATE s0)) (session dave)
           (t0 + minutes 30)); [vm_compute; reflexivity | exact H | vm_compute; reflexivity].
Defined.

(** C6, as the code behaves by design. A token issued with a negative
    delta of at least one second fails verification with
    [ExpiredSignatureError] at any time from its issuance on. *)
Theorem negative_ttl_expired (settings : Settings) (c : Claims) (subject : TokenSubject)
    (d : Z) (s s' : Store) (tok : Jwt) (t : Z)
    (Hd : d <= -1000000)
    (Hissue : create_token settings c (Some d) subject s = (inr tok, s'))
    (Hafter : st_clock s <= t) :
  decode tok (SECRET_KEY settings) [ALGORITHM settings] t = inl ExpiredSignatureError.
Proof.
  apply create_token_result in Hissue; [| lia]. subst tok.
  rewrite decode_own_token.
  assert (Hlt : numeric_date (st_clock s + d) < numeric_date t).
  { unfold numeric_date.
    assert (E : (t + -1 * 1000000) / 1000000 = t / 1000000 + -1)
      by (apply Z_div_plus_full; lia).
    pose proof (Z.div_le_mono (st_clock s + d) (t + -1 * 1000000) 1000000
                  ltac:(lia) ltac:(lia)). lia. }
  apply Z.ltb_lt in Hlt. rewrite Hlt. reflexivity.
Qed.

Lemma negative_ttl_expired_witness :
  create_token cfg dave_claims (Some (-(minutes 1))) ACTIVATE s0
  = (inr (encode dave_claims (t0 - minutes 1) ACTIVATE (SECRET_KEY cfg) (ALGORITHM cfg)),
     snd (create_token cfg dave_claims (Some (-(minutes 1))) ACTIVATE s0)) /\
  decode (encode dave_claims (t0 - minutes 1) ACTIVATE (SECRET_KEY cfg) (ALGORITHM cfg))
         (SECRET_KEY cfg) [ALGORITHM cfg] t0 = inl ExpiredSignatureError.
Proof.
  assert (H : create_token cfg dave_claims (Some (-(minutes 1))) ACTIVATE s0
    = (inr (encode dave_claims (t0 - minutes 1) ACTIVATE (SECRET_KEY cfg) (ALGORITHM cfg)),
       snd (create_token cfg dave_claims (Some (-(minutes 1))) ACTIVATE s0)))
    by (vm_compute; reflexivity).
  split; [exact H |].
  apply (negative_ttl_expired cfg dave_claims ACTIVATE (-(minutes 1)) s0
           (snd (create_token cfg dave_claims (Some (-(minutes 1))) ACTIVATE s0))
           (encode dave_claims (t0 - minutes 1) ACTIVATE (SECRET_KEY cfg) (ALGORITHM cfg)) t0);
    [vm_compute; discriminate | exact H | vm_compute; discriminate].
Defined.

(* ------------------------------------------------------------------ *)
(** ** Resolving an invitation *)

(** C7 (invitation resolution). For a token that decodes with the server
    key at the current time, [get_user_from_invitation] rejects with
    "This is not an invitation token" unless the subject is
    GROUP_INVITE_CO_OWNER, GROUP_INVITE_MEMBER or USER_INVITE; otherwise it
    looks up the user whose email is the [user_email_invited] claim (the
    [email] claim plays no part) and fails with "This user doesn't exist"
    when there is none. The store is left unchanged. *)
Theorem get_user_from_invitation_spec (settings : Settings) (tok : Jwt) (s : Store)
    (p : Payload)
    (Hdec : decode tok (SECRET_KEY settings) [ALGORITHM settings] (st_clock s) = inr p) :
  get_user_from_invitation settings tok s =
  (if is_invitation (p_subject p) then
     match c_user_email_invited (p_claims p) with
     | Some e =>
         match st_users s !! e with
         | Some u => inr {| w_user := u; w_token := tok |}
         | None => inl (HTTPException 404 "This user doesn't exist")
         end
     | None => inl (HTTPException 404 "This user doesn't exist")
     end
   else inl (HTTPException 403 "This is not an invitation token"), s).
Proof.
  unfold get_user_from_invitation, bind, utcnow, gets. cbn [fst snd].
  rewrite Hdec.
  destruct (is_invitation (p_subject p)); cbn; [| reflexivity].
  destruct (c_user_email_invited (p_claims p)) as [e |]; [| reflexivity].
  unfold get_user_by_email, bind, gets. cbn.
  destruct (st_users s !! e); reflexivity.
Qed.

Lemma get_user_from_invitation_spec_witness :
  decode tok_member (SECRET_KEY cfg) [ALGORITHM cfg] (st_clock s_inv1)
  = inr {| p_claims := jwt_claims tok_member; p_exp := jwt_exp tok_member;
           p_subject := GROUP_INVITE_MEMBER |} /\
  get_user_from_invitation cfg tok_member s_inv1 = (inr {| w_user := dave; w_token := tok_member |}, s_inv1).
Proof.
  assert (H : decode tok_member (SECRET_KEY cfg) [ALGORITHM cfg] (st_clock s_inv1)
              = inr {| p_claims := jwt_claims tok_member; p_exp := jwt_exp tok_member;
                       p_subject := GROUP_INVITE_MEMBER |}) by (vm_compute; reflexivity).
  split; [exact H |].
  rewrite (get_user_from_invitation_spec cfg tok_member s_inv1 _ H).
  vm_compute. reflexivity.
Defined.

(* ------------------------------------------------------------------ *)
(** ** The invite decision *)

Lemma bind_ok {A B} (m : M A) (k : A -> M B) (s : Store) (a : A) (s' : Store) :
  m s = (inr a, s') -> bind m k s = k a s'.
Proof. intros H. unfold bind. rewrite H. reflexivity. Qed.

Lemma bind_err {A B} (m : M A) (k : A -> M B) (s : Store) (e : Exc) (s' : Store) :
  m s = (inl e, s') -> bind m k s = (inl e, s').
Proof. intros H. unfold bind. rewrite H. reflexivity. Qed.

Lemma get_group_by_id_found (gid : string) (s : Store) (g : Group) :
  st_groups s !! gid = Some g -> get_group_by_id gid s = (inr g, s).
Proof. intros H. unfold get_group_by_id, bind, gets. cbn. rewrite H. reflexivity. Qed.

Lemma db_write_ok (f : Store -> Store) (s : Store) :
  st_fail_at s = None -> db_write f s = (inr tt, f (bump_writes s)).
Proof. intros H. unfold db_write. rewrite H. reflexivity. Qed.

(** With no failing write, [process_invitation] appends one unconsumed
    token record bound to the invited email and the group. *)
Lemma process_invitation_ok (settings : Settings) (gid : string) (gi : GroupInvite)
    (u : User) (subject : TokenSubject) (m : Z) (s : Store) :
  st_fail_at s = None ->
  exists r, process_invitation settings gid gi u subject m s
            = (inr tt, set_tokens (bump_writes s) (st_tokens s ++ [r])) /\
          tdb_subject r = subject /\
          tdb_claims r = {| c_email := u_email u; c_username := u_username u;
                            c_group_id := Some gid; c_user_email_invited := Some (gi_email gi) |} /\
          tdb_used_at r = None.
Proof.
  intros Hf.
  unfold process_invitation, wrap_user_db_data_into_token, create_token, bind, utcnow,
    gets, ret, save_token.
  cbn -[db_write encode].
  destruct (negb (minutes m =? 0)); cbn -[db_write encode];
    rewrite db_write_ok by exact Hf; cbn -[encode];
    eexists; (split; [reflexivity | repeat split]).
Qed.

Lemma invite_unfold (settings : Settings) (gi : GroupInvite) (w : UserTokenWrapper)
    (s : Store) (g : Group) :
  st_groups s !! gi_group_id gi = Some g ->
  invite settings gi w s =
  (if user_is_owner g (user_base (w_user w)) || user_is_co_owner g (user_base (w_user w)) then
     if bool_decide (gi_role gi = OWNER) then (inl (HTTPException 403 "Owner role is unique"), s)
     else if user_in_group g (user_base (invited_user s (gi_email gi))) then
       (inl (HTTPException 403 "User already in group"), s)
     else
       ((if bool_decide (gi_role gi = CO_OWNER) then
           if user_is_co_owner g (user_base (w_user w)) then
             http403 "User is not allowed to invite another co-owner"
           else process_invitation settings (gi_group_id gi) gi (invited_user s (gi_email gi))
                  GROUP_INVITE_CO_OWNER (GROUP_INVITE_CO_OWNER_TOKEN_EXPIRE_MINUTES settings)
         else ret tt) ;;;
        (if bool_decide (gi_role gi = MEMBER) then
           process_invitation settings (gi_group_id gi) gi (invited_user s (gi_email gi))
             GROUP_INVITE_MEMBER (GROUP_INVITE_MEMBER_TOKEN_EXPIRE_MINUTES settings)
         else ret tt) ;;;
        ret RUNNING) s
   else (inl (HTTPException 403 "User is not allowed to invite"), s)).
Proof.
  intros Hg. unfold invite.
  rewrite (bind_ok _ _ s g s (get_group_by_id_found _ _ _ Hg)).
  destruct (user_is_owner g (user_base (w_user w)) || user_is_co_owner g (user_base (w_user w)));
    [| reflexivity].
  destruct (bool_decide (gi_role gi = OWNER)); [reflexivity |].
  rewrite (bind_ok _ _ s (invited_user s (gi_email gi)) s);
    [destruct (user_in_group g (user_base (invited_user s (gi_email gi)))); reflexivity |].
  unfold try_catch, get_user_by_email, bind, gets, invited_user.
  destruct (st_users s !! gi_email gi); reflexivity.
Qed.

(** C4, as the code behaves. On an existing group, [invite] decides in
    this order: a caller who is neither OWNER nor CO_OWNER is rejected
    (NotAuthorized), whatever the role asked for; then role OWNER is
    rejected (OwnerRoleUnique); then a target already holding a role is
    rejected (AlreadyInGroup); then a CO_OWNER asking for CO_OWNER is
    rejected (NotAuthorized); otherwise an OWNER (who is not also listed
    as co-owner) inviting MEMBER or CO_OWNER, or a CO_OWNER inviting
    MEMBER, gets the invitation token of that role issued. Rejections
    leave the store unchanged. *)
Theorem invite_role_matrix (settings : Settings) (gi : GroupInvite) (w : UserTokenWrapper)
    (s : Store) (g : Group)
    (Hg : st_groups s !! gi_group_id gi = Some g)
    (Hnofault : st_fail_at s = None) :
  let caller := user_base (w_user w) in
  let target := user_base (invited_user s (gi_email gi)) in
  let authorized := user_is_owner g caller || user_is_co_owner g caller in
  (authorized = false ->
     invite settings gi w s = (inl (HTTPException 403 "User is not allowed to invite"), s)) /\
  (authorized = true -> gi_role gi = OWNER ->
     invite settings gi w s = (inl (HTTPException 403 "Owner role is unique"), s)) /\
  (authorized = true -> gi_role gi <> OWNER -> user_in_group g target = true ->
     invite settings gi w s = (inl (HTTPException 403 "User already in group"), s)) /\
  (user_is_co_owner g caller = true -> gi_role gi = CO_OWNER -> user_in_group g target = false ->
     invite settings gi w s
     = (inl (HTTPException 403 "User is not allowed to invite another co-owner"), s)) /\
  ((user_is_owner g caller = true /\ user_is_co_owner g caller = false \/
    user_is_co_owner g caller = true /\ gi_role gi = MEMBER) ->
   gi_role gi <> OWNER -> user_in_group g target = false ->
   exists r, invite settings gi w s
             = (inr RUNNING, set_tokens (bump_writes s) (st_tokens s ++ [r])) /\
           tdb_subject r = invite_subject (gi_role gi) /\
           c_user_email_invited (tdb_claims r) = Some (gi_email gi) /\
           c_group_id (tdb_claims r) = Some (gi_group_id gi) /\
           tdb_used_at r = None).
Proof.
  intros caller target authorized.
  pose proof (invite_unfold settings gi w s g Hg) as E.
  fold caller target in E. fold authorized in E.
  split; [| split; [| split; [| split]]].
  - intros Ha. rewrite E, Ha. reflexivity.
  - intros Ha Hr. rewrite E, Ha, Hr. reflexivity.
  - intros Ha Hr Hin. rewrite E, Ha, Hin.
    rewrite bool_decide_false by exact Hr. reflexivity.
  - intros Hco Hr Hin. rewrite E, Hin.
    assert (Ha : authorized = true) by (unfold authorized; rewrite Hco, orb_true_r; reflexivity).
    rewrite Ha, Hr, Hco. reflexivity.
  - intros Hcase Hr Hin.
    assert (Ha : authorized = true).
    { unfold authorized. destruct Hcase as [[Ho _] | [Hco _]];
        [rewrite Ho | rewrite Hco, orb_true_r]; reflexivity. }
    rewrite E, Ha, Hin. rewrite bool_decide_false by exact Hr.
    destruct (gi_role gi) eqn:Erole; [contradiction | |].
    + (* CO_OWNER: only the owner case applies *)
      destruct Hcase as [[_ Hnco] | [_ Hm]]; [| discriminate].
      rewrite bool_decide_true by reflexivity. fold caller. rewrite Hnco.
      destruct (process_invitation_ok settings (gi_group_id gi) gi (invited_user s (gi_email gi))
                  GROUP_INVITE_CO_OWNER (GROUP_INVITE_CO_OWNER_TOKEN_EXPIRE_MINUTES settings) s
                  Hnofault) as (r & Hp & Hsub & Hcl & Hused).
      exists r. rewrite (bind_ok _ _ s tt _ Hp).
      rewrite bool_decide_false by discriminate.
      rewrite Hcl. repeat split; first [assumption | reflexivity].
    + (* MEMBER *)
      rewrite bool_decide_false by discriminate.
      rewrite (bind_ok _ _ s tt s) by reflexivity.
      rewrite bool_decide_true by reflexivity.
      destruct (process_invitation_ok settings (gi_group_id gi) gi (invited_user s (gi_email gi))
                  GROUP_INVITE_MEMBER (GROUP_INVITE_MEMBER_TOKEN_EXPIRE_MINUTES settings) s
                  Hnofault) as (r & Hp & Hsub & Hcl & Hused).
      exists r. rewrite (bind_ok _ _ s tt _ Hp).
      rewrite Hcl. repeat split; first [assumption | reflexivity].
Qed.

Lemma invite_role_matrix_witness :
  st_groups s0 !! "g1" = Some g1 /\ st_fail_at s0 = None /\
  exists r, invite cfg (invite_dave CO_OWNER) (wrapper alice) s0
            = (inr RUNNING, set_tokens (bump_writes s0) (st_tokens s0 ++ [r])) /\
          tdb_subject r = GROUP_INVITE_CO_OWNER.
Proof.
  split; [reflexivity |]. split; [reflexivity |].
  destruct (invite_role_matrix cfg (invite_dave CO_OWNER) (wrapper alice) s0 g1
              eq_refl eq_refl) as (_ & _ & _ & _ & H5).
  destruct H5 as (r & Hr & Hsub & _).
  - left. split; vm_compute; reflexivity.
  - discriminate.
  - vm_compute. reflexivity.
  - exists r. split; assumption.
Defined.

(* ------------------------------------------------------------------ *)
(** ** The kick decision *)

Lemma kick_unfold (gk : GroupKick) (w : UserTokenWrapper) (s : Store) (g : Group) :
  st_groups s !! gk_id gk = Some g ->
  let caller := user_base (w_user w) in
  kick gk w s =
  (if user_in_group g caller then
     if user_is_owner g caller || user_is_co_owner g caller then
       match st_users s !! gk_email gk with
       | None => (inl (HTTPException 404 "This user doesn't exist"), s)
       | Some u =>
           if user_in_group g (user_base u) then
             if user_is_owner g (user_base u) then
               (inl (HTTPException 403 "Owner of the group can't be kicked"), s)
             else if user_is_co_owner g (user_base u) && user_is_co_owner g caller then
               (inl (HTTPException 403 "Co-owner is not allowed to kick other co-owner"), s)
             else (leave_group (gk_id gk) g (user_base u) ;;; ret COMPLETED) s
           else (inl (HTTPException 403 "User is not in the group"), s)
       end
     else (inl (HTTPException 403 "User is not allowed to kick other members"), s)
   else (inl (HTTPException 403 "Current user is not part of the group"), s)).
Proof.
  intros Hg caller. unfold kick.
  rewrite (bind_ok _ _ s g s (get_group_by_id_found _ _ _ Hg)). fold caller.
  destruct (user_in_group g caller); [| reflexivity].
  destruct (user_is_owner g caller || user_is_co_owner g caller); [| reflexivity].
  unfold bind at 1, get_user_by_email, bind at 1, gets.
  destruct (st_users s !! gk_email gk) as [u |]; [| reflexivity].
  cbn [fst snd]. unfold ret at 1.
  destruct (user_in_group g (user_base u)); [| reflexivity].
  destruct (user_is_owner g (user_base u)); [reflexivity |].
  destruct (user_is_co_owner g (user_base u) && user_is_co_owner g caller); reflexivity.
Qed.

Lemma filter_out_not_exists (u : UserBase) (l : list UserBase) :
  existsb (same_user u) (List.filter (fun v => negb (same_user u v)) l) = false.
Proof.
  induction l as [| v l IH]; [reflexivity |].
  cbn. destruct (same_user u v) eqn:E; cbn; [exact IH |]. rewrite E. exact IH.
Qed.

Lemma remove_user_not_in_group (g : Group) (u : UserBase) :
  user_is_owner g u = false -> user_in_group (remove_user g u) u = false.
Proof.
  intros Ho. unfold user_in_group, user_is_owner, user_is_co_owner, user_is_member, remove_user.
  cbn. unfold user_is_owner in Ho. rewrite Ho, !filter_out_not_exists. reflexivity.
Qed.

Lemma authorized_in_group (g : Group) (u : UserBase) :
  user_is_owner g u || user_is_co_owner g u = true -> user_in_group g u = true.
Proof. unfold user_in_group. intros H. rewrite H. reflexivity. Qed.

(** C5, as the code behaves. On an existing group, [kick] decides in
    this order: a caller not in the group is rejected ("Current user is
    not part of the group") and a caller who is only a MEMBER is rejected
    ("User is not allowed to kick other members"), both NotAuthorized;
    then the target email is looked up, and an email of no registered user
    is rejected with "This user doesn't exist" (UserNotFound); a registered
    target not in the group is rejected (NotInGroup); the OWNER cannot be
    kicked (CannotKickOwner); a CO_OWNER cannot kick a CO_OWNER
    (CoOwnerCannotKickCoOwner); otherwise the target loses every role in
    the group and the owner stays. Rejections leave the store unchanged. *)
Theorem kick_matrix (gk : GroupKick) (w : UserTokenWrapper) (s : Store) (g : Group)
    (Hg : st_groups s !! gk_id gk = Some g)
    (Hnofault : st_fail_at s = None) :
  let caller := user_base (w_user w) in
  let authorized := user_is_owner g caller || user_is_co_owner g caller in
  (user_in_group g caller = false ->
     kick gk w s = (inl (HTTPException 403 "Current user is not part of the group"), s)) /\
  (user_in_group g caller = true -> authorized = false ->
     kick gk w s = (inl (HTTPException 403 "User is not allowed to kick other members"), s)) /\
  (authorized = true -> st_users s !! gk_email gk = None ->
     kick gk w s = (inl (HTTPException 404 "This user doesn't exist"), s)) /\
  (forall u, authorized = true -> st_users s !! gk_email gk = Some u ->
     (user_in_group g (user_base u) = false ->
        kick gk w s = (inl (HTTPException 403 "User is not in the group"), s)) /\
     (user_is_owner g (user_base u) = true ->
        kick gk w s = (inl (HTTPException 403 "Owner of the group can't be kicked"), s)) /\
     (user_is_owner g (user_base u) = false -> user_is_co_owner g (user_base u) = true ->
      user_is_co_owner g caller = true ->
        kick gk w s
        = (inl (HTTPException 403 "Co-owner is not allowed to kick other co-owner"), s)) /\
     (user_in_group g (user_base u) = true -> user_is_owner g (user_base u) = false ->
      user_is_co_owner g (user_base u) && user_is_co_owner g caller = false ->
        exists s', kick gk w s = (inr COMPLETED, s') /\
          exists g', st_groups s' !! gk_id gk = Some g' /\
                     user_in_group g' (user_base u) = false /\ g_owner g' = g_owner g)).
Proof.
  intros caller authorized.
  pose proof (kick_unfold gk w s g Hg) as E. cbv zeta in E. fold caller authorized in E.
  split; [| split; [| split]].
  - intros Hin. rewrite E, Hin. reflexivity.
  - intros Hin Ha. rewrite E, Hin, Ha. reflexivity.
  - intros Ha Hu. rewrite E, (authorized_in_group _ _ Ha). fold authorized.
    rewrite Ha, Hu. reflexivity.
  - intros u Ha Hu.
    rewrite E, (authorized_in_group _ _ Ha). fold authorized. rewrite Ha, Hu.
    split; [| split; [| split]].
    + intros Hnin. rewrite Hnin. reflexivity.
    + intros Ho. rewrite (authorized_in_group g (user_base u)) by (rewrite Ho; reflexivity).
      rewrite Ho. reflexivity.
    + intros Ho Hco Hcc. rewrite (authorized_in_group g (user_base u))
        by (rewrite Hco, orb_true_r; reflexivity).
      rewrite Ho, Hco, Hcc. reflexivity.
    + intros Hin Ho Hcc. rewrite Hin, Ho, Hcc.
      unfold leave_group. rewrite (bind_ok _ _ s tt _ (db_write_ok _ s Hnofault)).
      eexists. split; [reflexivity |].
      exists (remove_user g (user_base u)). cbn.
      split; [apply lookup_insert_eq |].
      split; [apply remove_user_not_in_group; exact Ho | reflexivity].
Qed.

Lemma kick_matrix_witness :
  st_groups s0 !! "g1" = Some g1 /\ st_fail_at s0 = None /\
  exists s', kick {| gk_id := "g1"; gk_email := "bob@x.io" |} (wrapper alice) s0
             = (inr COMPLETED, s') /\
    exists g', st_groups s' !! "g1" = Some g' /\ user_in_group g' (user_base bob) = false.
Proof.
  split; [reflexivity |]. split; [reflexivity |].
  destruct (kick_matrix {| gk_id := "g1"; gk_email := "bob@x.io" |} (wrapper alice) s0 g1
              eq_refl eq_refl) as (_ & _ & _ & H4).
  destruct (H4 bob) as (_ & _ & _ & H); [vm_compute; reflexivity | vm_compute; reflexivity |].
  destruct H as (s' & Hk & g' & Hg' & Hout & _);
    [vm_compute; reflexivity | vm_compute; reflexivity | vm_compute; reflexivity |].
  exists s'. split; [exact Hk |]. exists g'. split; assumption.
Defined.

(* ------------------------------------------------------------------ *)
(** ** Consumption is permanent *)

Lemma consumed_as_tokens (s s' : Store) :
  st_tokens s = st_tokens s' -> token_mono s s'.
Proof. intros E t subject (r & Hf & Hs & Hu). exists r. rewrite <- E. auto. Qed.

Lemma token_mono_refl (s : Store) : token_mono s s.
Proof. now apply consumed_as_tokens. Qed.

Lemma token_mono_trans (s1 s2 s3 : Store) :
  token_mono s1 s2 -> token_mono s2 s3 -> token_mono s1 s3.
Proof. intros H1 H2 t subject H. auto. Qed.

Lemma find_token_app (t : Jwt) (l l' : list TokenDB) (r : TokenDB) :
  find_token t l = Some r -> find_token t (l ++ l') = Some r.
Proof.
  unfold find_token. induction l as [| x l IH]; cbn; [discriminate |].
  destruct (bool_decide (tdb_token x = t)); auto.
Qed.

Lemma find_token_some (t : Jwt) (l : list TokenDB) (r : TokenDB) :
  find_token t l = Some r -> tdb_token r = t.
Proof.
  unfold find_token. intros H. apply find_some in H as [_ H].
  now apply bool_decide_eq_true in H.
Qed.

Lemma find_token_mark (t t' : Jwt) (now : Z) (l : list TokenDB) :
  find_token t (map (mark_used t' now) l) = option_map (mark_used t' now) (find_token t l).
Proof.
  unfold find_token. induction l as [| x l IH]; cbn; [reflexivity |].
  assert (E : tdb_token (mark_used t' now x) = tdb_token x)
    by (unfold mark_used; case_bool_decide; reflexivity).
  rewrite E. destruct (bool_decide (tdb_token x = t)); auto.
Qed.

Lemma mark_used_subject (t : Jwt) (now : Z) (r : TokenDB) :
  tdb_subject (mark_used t now r) = tdb_subject r.
Proof. unfold mark_used. case_bool_decide; reflexivity. Qed.

Lemma mark_used_truthy (t : Jwt) (now : Z) (r : TokenDB) :
  truthy_dt (tdb_used_at r) = true -> truthy_dt (tdb_used_at (mark_used t now r)) = true.
Proof. unfold mark_used. case_bool_decide; auto. Qed.

Lemma token_mono_append (s : Store) (r : TokenDB) :
  token_mono s (set_tokens s (st_tokens s ++ [r])).
Proof.
  intros t subject (r0 & Hf & Hs & Hu). exists r0. cbn [st_tokens set_tokens].
  split; [now apply find_token_app | auto].
Qed.

Lemma token_mono_mark (s : Store) (t' : Jwt) (now : Z) :
  token_mono s (set_tokens s (map (mark_used t' now) (st_tokens s))).
Proof.
  intros t subject (r0 & Hf & Hs & Hu). exists (mark_used t' now r0).
  cbn [st_tokens set_tokens].
  rewrite find_token_mark, Hf. split; [reflexivity |].
  split; [now rewrite mark_used_subject | now apply mark_used_truthy].
Qed.

Lemma preserves_ret {A} (a : A) : preserves (ret a).
Proof. intros s. apply token_mono_refl. Qed.

Lemma preserves_raise {A} (e : Exc) : preserves (A := A) (raise e).
Proof. intros s. apply token_mono_refl. Qed.

Lemma preserves_gets {A} (f : Store -> A) : preserves (gets f).
Proof. intros s. apply token_mono_refl. Qed.

Lemma preserves_bind {A B} (m : M A) (k : A -> M B) :
  preserves m -> (forall a, preserves (k a)) -> preserves (bind m k).
Proof.
  intros Hm Hk s. unfold bind. specialize (Hm s).
  destruct (m s) as [[e | a] s'] eqn:E; cbn in *; [exact Hm |].
  eapply token_mono_trans; [exact Hm | apply Hk].
Qed.

Lemma preserves_try_catch {A} (m : M A) (h : Exc -> M A) :
  preserves m -> (forall e, preserves (h e)) -> preserves (try_catch m h).
Proof.
  intros Hm Hh s. unfold try_catch. specialize (Hm s).
  destruct (m s) as [[e | a] s'] eqn:E; cbn in *; [| exact Hm].
  eapply token_mono_trans; [exact Hm | apply Hh].
Qed.

Lemma preserves_db_write (f : Store -> Store) :
  (forall s, token_mono s (f s)) -> preserves (db_write f).
Proof.
  intros Hf s. unfold db_write.
  destruct (match st_fail_at s with Some k => Nat.eqb k (st_writes s) | None => false end);
    cbn.
  - now apply consumed_as_tokens.
  - eapply token_mono_trans; [| apply Hf]. now apply consumed_as_tokens.
Qed.

Create HintDb token_mono.
#[export] Hint Resolve preserves_ret preserves_raise preserves_gets : token_mono.

Ltac preserves_step :=
  match goal with
  | |- preserves (bind _ _) => apply preserves_bind; [| intros ?]
  | |- preserves (try_catch _ _) => apply preserves_try_catch; [| intros ?]
  | |- preserves (db_write _) =>
      apply preserves_db_write; intros ?;
      first [ apply token_mono_append | apply token_mono_mark
            | apply consumed_as_tokens; reflexivity ]
  | |- preserves (ret _) => apply preserves_ret
  | |- preserves (raise _) => apply preserves_raise
  | |- preserves (gets _) => apply preserves_gets
  | |- preserves (let _ := _ in _) => cbv zeta
  | |- preserves _ => solve [eauto with token_mono]
  | |- preserves _ => case_match
  end.

Ltac preserves_auto :=
  unfold utcnow, http403, http404, lift in *; repeat preserves_step.

Lemma preserves_get_user_by_email (e : string) : preserves (get_user_by_email e).
Proof. unfold get_user_by_email. preserves_auto. Qed.

Lemma preserves_get_group_by_id (gid : string) : preserves (get_group_by_id gid).
Proof. unfold get_group_by_id. preserves_auto. Qed.

Lemma preserves_get_token_db (t : Jwt) : preserves (get_token_db t).
Proof. unfold get_token_db. preserves_auto. Qed.

Lemma preserves_create_token (settings : Settings) (c : Claims) (d : option Z)
    (subject : TokenSubject) : preserves (create_token settings c d subject).
Proof. unfold create_token, save_token. preserves_auto. Qed.

#[export] Hint Resolve preserves_get_user_by_email preserves_get_group_by_id
  preserves_get_token_db preserves_create_token : token_mono.

Lemma preserves_get_current_user (settings : Settings) (t : Jwt) :
  preserves (get_current_user settings t).
Proof. unfold get_current_user. preserves_auto. Qed.

Lemma preserves_get_user_from_invitation (settings : Settings) (t : Jwt) :
  preserves (get_user_from_invitation settings t).
Proof. unfold get_user_from_invitation. preserves_auto. Qed.

Lemma preserves_invite (settings : Settings) (gi : GroupInvite) (w : UserTokenWrapper) :
  preserves (invite settings gi w).
Proof.
  unfold invite, process_invitation, wrap_user_db_data_into_token. preserves_auto.
Qed.

Lemma preserves_join (ui uc : UserTokenWrapper) : preserves (join ui uc).
Proof. unfold join, update_group, update_token. preserves_auto. Qed.

Lemma preserves_kick (gk : GroupKick) (w : UserTokenWrapper) : preserves (kick gk w).
Proof. unfold kick, leave_group. preserves_auto. Qed.

Lemma preserves_leave (gid : string) (w : UserTokenWrapper) : preserves (leave gid w).
Proof. unfold leave, leave_group. preserves_auto. Qed.

Lemma preserves_activate (w : UserTokenWrapper) : preserves (activate w).
Proof. unfold activate, update_user, update_token. preserves_auto. Qed.

Lemma preserves_change_password (w : UserTokenWrapper) (p : string) :
  preserves (change_password w p).
Proof. unfold change_password, update_user, update_token. preserves_auto. Qed.

Lemma preserves_join_via_invitation (ui uc : UserTokenWrapper) :
  preserves (join_via_invitation ui uc).
Proof. unfold join_via_invitation, update_token. preserves_auto. Qed.

Lemma preserves_recover (settings : Settings) (e n : string) :
  preserves (recover settings e n).
Proof. unfold recover, wrap_user_db_data_into_token. preserves_auto. Qed.

Lemma preserves_invite_user (settings : Settings) (e : string) (w : UserTokenWrapper) :
  preserves (invite_user settings e w).
Proof. unfold invite_user, wrap_user_db_data_into_token. preserves_auto. Qed.

#[export] Hint Resolve preserves_get_current_user preserves_get_user_from_invitation
  preserves_invite preserves_join preserves_kick preserves_leave preserves_activate
  preserves_change_password preserves_join_via_invitation preserves_recover
  preserves_invite_user : token_mono.

Lemma preserves_run_request (settings : Settings) (rq : Request) :
  preserves (run_request settings rq).
Proof. destruct rq; cbn [run_request]; unfold join_request; preserves_auto. Qed.

Lemma reachable_token_mono (settings : Settings) (s s' : Store) :
  reachable settings s s' -> token_mono s s'.
Proof.
  induction 1 as [s | s s' rq _ IH | s s' clock fail_at _ IH _].
  - apply token_mono_refl.
  - eapply token_mono_trans; [exact IH | apply preserves_run_request].
  - eapply token_mono_trans; [exact IH |]. now apply consumed_as_tokens.
Qed.

Lemma reachable_consumed (settings : Settings) (t : Jwt) (subject : TokenSubject)
    (s s' : Store) :
  consumed_as t subject s -> reachable settings s s' -> consumed_as t subject s'.
Proof. intros H R. exact (reachable_token_mono settings s s' R t subject H). Qed.

(** *** Redemption, step by step *)

Lemma bind_inv {A B} (m : M A) (k : A -> M B) (s s2 : Store) (b : B) :
  bind m k s = (inr b, s2) -> exists a s1, m s = (inr a, s1) /\ k a s1 = (inr b, s2).
Proof.
  unfold bind. destruct (m s) as [[e | a] s1]; [discriminate |]. eauto.
Qed.

Ltac inv_bind H := apply bind_inv in H as (? & ? & ? & H).

Lemma get_token_db_inv (t : Jwt) (s s1 : Store) (r : TokenDB) :
  get_token_db t s = (inr r, s1) -> s1 = s /\ find_token t (st_tokens s) = Some r.
Proof.
  unfold get_token_db, bind, gets. cbn. destruct (find_token t (st_tokens s)) as [r0 |];
    cbv; intros H; inversion H; auto.
Qed.

Lemma get_token_db_found (t : Jwt) (s : Store) (r : TokenDB) :
  find_token t (st_tokens s) = Some r -> get_token_db t s = (inr r, s).
Proof. intros H. unfold get_token_db, bind, gets. cbn. rewrite H. reflexivity. Qed.

Lemma utcnow_inv (s s1 : Store) (now : Z) :
  utcnow s = (inr now, s1) -> s1 = s.
Proof. cbv. intros H. now inversion H. Qed.

Lemma db_write_tokens (f : Store -> Store) (s s1 : Store) (x : Exc + unit) :
  (forall s0, st_tokens (f s0) = st_tokens s0) ->
  db_write f s = (x, s1) -> st_tokens s1 = st_tokens s.
Proof.
  intros Hf. unfold db_write.
  destruct (st_fail_at s) as [k |]; [destruct (Nat.eqb k (st_writes s)) |];
    intros H; inversion H; subst; first [reflexivity | rewrite Hf; reflexivity].
Qed.

Lemma update_user_tokens (u : User) (upd : UserUpdate) (s s1 : Store) (x : Exc + User) :
  update_user u upd s = (x, s1) -> st_tokens s1 = st_tokens s.
Proof.
  unfold update_user, bind. destruct (db_write _ s) as [[e | []] s0] eqn:E;
    apply db_write_tokens in E; try reflexivity;
    intros H; inversion H; subst; exact E.
Qed.

Lemma update_group_tokens (gid : string) (g : Group) (upd : GroupUpdate)
    (s s1 : Store) (x : Exc + Group) :
  update_group gid g upd s = (x, s1) -> st_tokens s1 = st_tokens s.
Proof.
  unfold update_group, bind. destruct (db_write _ s) as [[e | []] s0] eqn:E;
    apply db_write_tokens in E; try reflexivity;
    intros H; inversion H; subst; exact E.
Qed.

(** A successful [update_token] marks the record [get_token] finds. *)
Lemma update_token_consumes (t : Jwt) (r : TokenDB) (now : Z) (s s1 : Store) (x : unit) :
  find_token t (st_tokens s) = Some r ->
  update_token (tdb_token r) now s = (inr x, s1) ->
  consumed_as t (tdb_subject r) s1.
Proof.
  intros Hf. unfold update_token, db_write.
  destruct (st_fail_at s) as [k |]; [destruct (Nat.eqb k (st_writes s)) |];
    intros H; inversion H; subst.
  all: exists (mark_used (tdb_token r) now r); cbn [st_tokens set_tokens bump_writes].
  all: rewrite find_token_mark, Hf; split; [reflexivity |].
  all: split; [apply mark_used_subject |].
  all: unfold mark_used; rewrite bool_decide_eq_true_2 by reflexivity; reflexivity.
Qed.

Lemma get_group_by_id_state (gid : string) (s s1 : Store) (x : Exc + Group) :
  get_group_by_id gid s = (x, s1) -> s1 = s.
Proof.
  unfold get_group_by_id, bind, gets. cbn.
  destruct (st_groups s !! gid); cbv; intros H; now inversion H.
Qed.

Ltac no_success H := unfold http403, raise in H; discriminate H.

Lemma activate_consumes (w : UserTokenWrapper) (s s1 : Store) (u : User) :
  activate w s = (inr u, s1) -> consumed_as (w_token w) ACTIVATE s1.
Proof.
  unfold activate. intros H.
  apply bind_inv in H as (r & s0 & Hg & H). apply get_token_db_inv in Hg as [-> Hf].
  case_bool_decide as Hs; [| no_success H].
  destruct (truthy_dt (tdb_used_at r)); cbn [negb] in H; [no_success H |].
  apply bind_inv in H as (u' & s2 & Hup & H). apply update_user_tokens in Hup.
  apply bind_inv in H as (now & s3 & Hn & H). apply utcnow_inv in Hn. subst s3.
  apply bind_inv in H as ([] & s4 & Ht & H). unfold ret in H. inversion H. subst.
  rewrite <- Hs. eapply update_token_consumes; [rewrite Hup; exact Hf | exact Ht].
Qed.

Lemma activate_consumed (w : UserTokenWrapper) (s : Store) :
  consumed_as (w_token w) ACTIVATE s ->
  activate w s = (inl (HTTPException 403 "Token has expired"), s).
Proof.
  intros (r & Hf & Hs & Hu). unfold activate.
  rewrite (bind_ok _ _ s r s (get_token_db_found _ _ _ Hf)), Hs, Hu. reflexivity.
Qed.

Lemma change_password_consumes (w : UserTokenWrapper) (p : string) (s s1 : Store) (u : User) :
  change_password w p s = (inr u, s1) -> consumed_as (w_token w) RECOVER s1.
Proof.
  unfold change_password. intros H.
  apply bind_inv in H as (r & s0 & Hg & H). apply get_token_db_inv in Hg as [-> Hf].
  case_bool_decide as Hs; [| no_success H].
  destruct (truthy_dt (tdb_used_at r)); cbn [negb] in H; [no_success H |].
  apply bind_inv in H as (u' & s2 & Hup & H). apply update_user_tokens in Hup.
  apply bind_inv in H as (now & s3 & Hn & H). apply utcnow_inv in Hn. subst s3.
  apply bind_inv in H as ([] & s4 & Ht & H). unfold ret in H. inversion H. subst.
  rewrite <- Hs. eapply update_token_consumes; [rewrite Hup; exact Hf | exact Ht].
Qed.

Lemma change_password_consumed (w : UserTokenWrapper) (p : string) (s : Store) :
  consumed_as (w_token w) RECOVER s ->
  change_password w p s = (inl (HTTPException 403 "Token has expired"), s).
Proof.
  intros (r & Hf & Hs & Hu). unfold change_password.
  rewrite (bind_ok _ _ s r s (get_token_db_found _ _ _ Hf)), Hs, Hu. reflexivity.
Qed.

Lemma join_consumes (ui uc : UserTokenWrapper) (s s1 : Store) (x : Group * string) :
  join ui uc s = (inr x, s1) -> exists subject, consumed_as (w_token ui) subject s1.
Proof.
  unfold join. intros H.
  destruct (String.eqb _ _); [| no_success H].
  apply bind_inv in H as (r & s0 & Hg & H). apply get_token_db_inv in Hg as [-> Hf].
  destruct (truthy_dt (tdb_used_at r)); [no_success H |].
  destruct (c_group_id (tdb_claims r)) as [gid |]; [| unfold raise in H; discriminate H].
  apply bind_inv in H as (g & s2 & Hgg & H). apply get_group_by_id_state in Hgg. subst s2.
  cbv beta zeta in H.
  apply bind_inv in H as (g' & s3 & Hup & H). apply update_group_tokens in Hup.
  apply bind_inv in H as (now & s4 & Hn & H). apply utcnow_inv in Hn. subst s4.
  apply bind_inv in H as ([] & s5 & Ht & H). unfold ret in H. inversion H. subst.
  exists (tdb_subject r). eapply update_token_consumes; [rewrite Hup; exact Hf | exact Ht].
Qed.

Lemma join_consumed (ui uc : UserTokenWrapper) (subject : TokenSubject) (s : Store) :
  consumed_as (w_token ui) subject s ->
  join ui uc s =
    (inl (HTTPException 403
            (if String.eqb (u_email (w_user uc)) (u_email (w_user ui))
             then "Invitation token already used" else "This user was not invited")), s).
Proof.
  intros (r & Hf & _ & Hu). unfold join.
  destruct (String.eqb _ _); [| reflexivity].
  rewrite (bind_ok _ _ s r s (get_token_db_found _ _ _ Hf)), Hu. reflexivity.
Qed.

Lemma join_via_invitation_consumes (ui uc : UserTokenWrapper) (s s1 : Store) (u : User) :
  join_via_invitation ui uc s = (inr u, s1) ->
  exists subject, consumed_as (w_token ui) subject s1.
Proof.
  unfold join_via_invitation. intros H.
  apply bind_inv in H as (r & s0 & Hg & H). apply get_token_db_inv in Hg as [-> Hf].
  destruct (truthy_dt (tdb_used_at r)); cbn [negb] in H; [no_success H |].
  case_bool_decide; [| no_success H].
  apply bind_inv in H as (now & s3 & Hn & H). apply utcnow_inv in Hn. subst s3.
  apply bind_inv in H as ([] & s4 & Ht & H). unfold ret in H. inversion H. subst.
  exists (tdb_subject r). eapply update_token_consumes; [exact Hf | exact Ht].
Qed.

Lemma join_via_invitation_consumed (ui uc : UserTokenWrapper) (subject : TokenSubject)
    (s : Store) :
  consumed_as (w_token ui) subject s ->
  join_via_invitation ui uc s = (inl (HTTPException 403 "Invitation token already used"), s).
Proof.
  intros (r & Hf & _ & Hu). unfold join_via_invitation.
  rewrite (bind_ok _ _ s r s (get_token_db_found _ _ _ Hf)), Hu. reflexivity.
Qed.

(** Claim C2: in every run of requests (the clock moving forward and any
    write failing in between), a token consumed by a successful redemption
    stays consumed; every later redemption of the same token by the same
    workflow is rejected with a 403 and leaves the store unchanged. Join
    and user-invite acceptance report "Invitation token already used"
    (join checks the emails first); activation and password change report
    "Token has expired" for a token that is used, not expired. *)
Theorem token_consumed_once (settings : Settings) :
  (forall t subject s s',
     consumed_as t subject s -> reachable settings s s' -> consumed_as t subject s') /\
  (forall w w' s s1 s2 u,
     activate w s = (inr u, s1) -> reachable settings s1 s2 -> w_token w' = w_token w ->
     consumed_as (w_token w) ACTIVATE s1 /\
     activate w' s2 = (inl (HTTPException 403 "Token has expired"), s2)) /\
  (forall w w' p p' s s1 s2 u,
     change_password w p s = (inr u, s1) -> reachable settings s1 s2 ->
     w_token w' = w_token w ->
     consumed_as (w_token w) RECOVER s1 /\
     change_password w' p' s2 = (inl (HTTPException 403 "Token has expired"), s2)) /\
  (forall ui uc ui' uc' s s1 s2 x,
     join ui uc s = (inr x, s1) -> reachable settings s1 s2 -> w_token ui' = w_token ui ->
     (exists subject, consumed_as (w_token ui) subject s1) /\
     join ui' uc' s2 =
       (inl (HTTPException 403
               (if String.eqb (u_email (w_user uc')) (u_email (w_user ui'))
                then "Invitation token already used" else "This user was not invited")), s2)) /\
  (forall ui uc ui' uc' s s1 s2 u,
     join_via_invitation ui uc s = (inr u, s1) -> reachable settings s1 s2 ->
     w_token ui' = w_token ui ->
     (exists subject, consumed_as (w_token ui) subject s1) /\
     join_via_invitation ui' uc' s2 =
       (inl (HTTPException 403 "Invitation token already used"), s2)).
Proof.
  split; [exact (reachable_consumed settings) |].
  split; [| split; [| split]].
  - intros w w' s s1 s2 u H R Et. apply activate_consumes in H.
    split; [exact H |]. apply activate_consumed. rewrite Et.
    exact (reachable_consumed settings _ _ _ _ H R).
  - intros w w' p p' s s1 s2 u H R Et. apply change_password_consumes in H.
    split; [exact H |]. apply change_password_consumed. rewrite Et.
    exact (reachable_consumed settings _ _ _ _ H R).
  - intros ui uc ui' uc' s s1 s2 x H R Et. apply join_consumes in H as Hc.
    split; [exact Hc |]. destruct Hc as [subject Hc].
    apply (join_consumed _ _ subject). rewrite Et.
    exact (reachable_consumed settings _ _ _ _ Hc R).
  - intros ui uc ui' uc' s s1 s2 u H R Et. apply join_via_invitation_consumes in H as Hc.
    split; [exact Hc |]. destruct Hc as [subject Hc].
    apply (join_via_invitation_consumed _ _ subject). rewrite Et.
    exact (reachable_consumed settings _ _ _ _ Hc R).
Qed.

(* ------------------------------------------------------------------ *)
(** ** Header parsing *)

Import Issued.

Lemma split_space_length (h : string) :
  List.length (split_space h) = S (count_spaces h).
Proof.
  induction h as [| c h IH]; [reflexivity |]. cbn.
  destruct (Ascii.eqb c " "%char); cbn; [rewrite IH; reflexivity |].
  destruct (split_space h) as [| w ws]; cbn in *; [discriminate | exact IH].
Qed.

Lemma split_space_nospace (t : string) :
  count_spaces t = 0%nat -> split_space t = [t].
Proof.
  induction t as [| c t IH]; [reflexivity |]. cbn.
  destruct (Ascii.eqb c " "%char); [discriminate |]. cbn. intros H.
  rewrite (IH H). reflexivity.
Qed.

Lemma split_space_app (p t : string) :
  count_spaces p = 0%nat -> split_space (String.append p (String " "%char t)) = p :: split_space t.
Proof.
  induction p as [| c p IH]; [reflexivity |]. intros H.
  change (String.append (String c p) (String " "%char t))
    with (String c (String.append p (String " "%char t))).
  cbn [split_space count_spaces] in *.
  destruct (Ascii.eqb c " "%char); [discriminate |]. cbn in H.
  rewrite (IH H). reflexivity.
Qed.

Lemma unpack2_crash (h : string) :
  count_spaces h <> 1%nat -> unpack2 h = inl (Crash "ValueError").
Proof.
  intros Hn. pose proof (split_space_length h) as L. unfold unpack2.
  destruct (split_space h) as [| x [| y [| z l]]]; try reflexivity.
  cbn in L. lia.
Qed.

(** Parsing a well-formed header [<prefix> <token>] (neither part with a
    space) returns the token when the prefix is the configured one and
    otherwise rejects with the 403 of the channel; every channel of
    [get_token] parses alike, and so does [get_invitation_token]. *)
Theorem header_prefix_roundtrip (settings : Settings) (p t : string)
    (activation recovery : option string)
    (Hp : count_spaces p = 0%nat) (Ht : count_spaces t = 0%nat) :
  let h := String.append p (String " "%char t) in
  let res := fun d : string =>
    if String.eqb (JWT_TOKEN_PREFIX settings) p then inr t else inl (HTTPException 403 d) in
  get_token settings (Some h) activation recovery = res "Invalid authorization" /\
  get_token settings None (Some h) recovery = res "Invalid activation" /\
  get_token settings None None (Some h) = res "Invalid recover" /\
  get_invitation_token settings (Some h) = res "Invalid invitation".
Proof.
  intros h res.
  assert (Hs : split_space h = [p; t])
    by (unfold h; rewrite split_space_app, split_space_nospace by assumption; reflexivity).
  assert (Htr : truthy_str (Some h) = true) by (unfold h; destruct p; reflexivity).
  unfold get_token, get_invitation_token, check_prefixed, unpack2, res.
  rewrite Htr. cbn [truthy_str default from_option id]. rewrite !Hs.
  destruct (String.eqb (JWT_TOKEN_PREFIX settings) p); repeat split.
Qed.

Lemma header_prefix_roundtrip_witness :
  count_spaces "Token" = 0%nat /\ count_spaces "abc" = 0%nat /\
  get_token cfg (Some "Token abc"%string) None None = inr "abc"%string.
Proof.
  split; [reflexivity |]. split; [reflexivity |].
  destruct (header_prefix_roundtrip cfg "Token" "abc" None None eq_refl eq_refl)
    as (H & _). exact H.
Defined.

(** A non-empty header value that does not have exactly one space (no
    space at all, or several) crashes the unpacking
    [prefix, token = header.split(" ")] with [ValueError] on every
    channel, before the prefix is looked at. *)
Theorem header_malformed_crashes (settings : Settings) (h : string)
    (activation recovery : option string)
    (Hn : count_spaces h <> 1%nat) (Hne : h <> ""%string) :
  get_token settings (Some h) activation recovery = inl (Crash "ValueError") /\
  get_token settings None (Some h) recovery = inl (Crash "ValueError") /\
  get_token settings None None (Some h) = inl (Crash "ValueError") /\
  get_invitation_token settings (Some h) = inl (Crash "ValueError").
Proof.
  assert (Htr : truthy_str (Some h) = true).
  { cbn. apply String.eqb_neq in Hne. rewrite Hne. reflexivity. }
  unfold get_token, get_invitation_token, check_prefixed.
  rewrite Htr. cbn [truthy_str default from_option id]. rewrite !(unpack2_crash h Hn).
  repeat split.
Qed.

Lemma header_malformed_crashes_witness :
  count_spaces "Token a b" <> 1%nat /\ "Token a b"%string <> ""%string /\
  get_token cfg (Some "Token a b"%string) None None = inl (Crash "ValueError").
Proof.
  split; [discriminate |]. split; [discriminate |].
  destruct (header_malformed_crashes cfg "Token a b" None None ltac:(discriminate)
              ltac:(discriminate)) as (H & _). exact H.
Defined.

(* ------------------------------------------------------------------ *)
(** ** Resolving credentials *)

Lemma get_user_by_email_eq (e : string) (s : Store) :
  get_user_by_email e s =
  (match st_users s !! e with
   | Some u => inr u
   | None => inl (HTTPException 404 "This user doesn't exist")
   end, s).
Proof. unfold get_user_by_email, bind, gets. cbn. destruct (st_users s !! e); reflexivity. Qed.









(* ------------------------------------------------------------------ *)
(** ** Issuing tokens *)

(** The expiry [create_token] computes at time [t]. *)
Lemma create_token_ok (settings : Settings) (c : Claims) (ed : option Z)
    (subject : TokenSubject) (s : Store) :
  st_fail_at s = None ->
  let e := match ed with
           | Some d => if d =? 0 then st_clock s + minutes 10 else st_clock s + d
           | None => st_clock s + minutes 10
           end in
  let tok := encode c e subject (SECRET_KEY settings) (ALGORITHM settings) in
  create_token settings c ed subject s =
  (inr tok,
   set_tokens (bump_writes s)
     (st_tokens s ++ [{| tdb_claims := c; tdb_subject := subject; tdb_token := tok;
                         tdb_created_at := st_clock s; tdb_expire_datetime := e;
                         tdb_used_at := None |}])).
Proof.
  intros Hf e tok.
  unfold create_token, bind, utcnow, gets, ret, save_token. cbn -[db_write encode].
  unfold e, tok.
  destruct ed as [d |]; [destruct (d =? 0) |]; cbn -[db_write encode];
    rewrite db_write_ok by exact Hf; reflexivity.
Qed.

(** With no failing write, [create_token] appends exactly one record to
    the token collection and returns the token that record holds: signed
    with the server key and algorithm over the claims, the subject and the
    expiry, which is [utcnow() + expires_delta] for a nonzero delta and
    [utcnow() + 10 minutes] for an omitted or zero one; the record is
    unused and created at [utcnow()]. *)
Theorem create_token_stores_issued (settings : Settings) (c : Claims) (ed : option Z)
    (subject : TokenSubject) (s : Store) (Hnofault : st_fail_at s = None) :
  exists tok r,
    create_token settings c ed subject s
    = (inr tok, set_tokens (bump_writes s) (st_tokens s ++ [r])) /\
    tdb_token r = tok /\ tdb_claims r = c /\ tdb_subject r = subject /\
    tdb_used_at r = None /\ tdb_created_at r = st_clock s /\
    tdb_expire_datetime r = match ed with
                            | Some d => if d =? 0 then st_clock s + minutes 10
                                        else st_clock s + d
                            | None => st_clock s + minutes 10
                            end /\
    tok = encode c (tdb_expire_datetime r) subject (SECRET_KEY settings) (ALGORITHM settings).
Proof.
  rewrite (create_token_ok settings c ed subject s Hnofault).
  do 2 eexists. split; [reflexivity |]. repeat split.
Qed.

Lemma create_token_stores_issued_witness :
  st_fail_at s0 = None /\
  exists tok r, create_token cfg dave_claims (Some 0) ACTIVATE s0
                = (inr tok, set_tokens (bump_writes s0) (st_tokens s0 ++ [r])) /\
              tdb_expire_datetime r = t0 + minutes 10.
Proof.
  split; [reflexivity |].
  destruct (create_token_stores_issued cfg dave_claims (Some 0) ACTIVATE s0 eq_refl)
    as (tok & r & H & _ & _ & _ & _ & _ & He & _).
  exists tok, r. split; [exact H | rewrite He; reflexivity].
Defined.

(** When the write that saves the record fails, [create_token] raises
    and the token collection is as before: no token is returned and none
    is stored. *)
Theorem create_token_write_failure (settings : Settings) (c : Claims) (ed : option Z)
    (subject : TokenSubject) (s : Store) (Hfail : st_fail_at s = Some (st_writes s)) :
  exists s', create_token settings c ed subject s = (inl WriteError, s') /\
             st_tokens s' = st_tokens s.
Proof.
  exists (bump_writes s). split; [| reflexivity].
  unfold create_token, bind, utcnow, gets, ret, save_token, db_write. cbn -[encode].
  destruct ed as [d |]; [destruct (d =? 0) |]; cbn -[encode]; rewrite Hfail, Nat.eqb_refl;
    reflexivity.
Qed.

Lemma create_token_write_failure_witness :
  st_fail_at (with_fault s0 (Some 0%nat)) = Some (st_writes (with_fault s0 (Some 0%nat))) /\
  exists s', create_token cfg dave_claims (Some (minutes 60)) ACTIVATE (with_fault s0 (Some 0%nat))
             = (inl WriteError, s') /\ st_tokens s' = [].
Proof.
  split; [reflexivity |].
  exact (create_token_write_failure cfg dave_claims (Some (minutes 60)) ACTIVATE
           (with_fault s0 (Some 0%nat)) eq_refl).
Defined.

Lemma wrap_ok (settings : Settings) (u : User) (subject : TokenSubject)
    (group_id email_invited : option string) (d : Z) (s : Store) :
  st_fail_at s = None ->
  exists r, wrap_user_db_data_into_token settings u subject group_id email_invited d s
            = (inr (tdb_token r), set_tokens (bump_writes s) (st_tokens s ++ [r])) /\
          tdb_subject r = subject /\
          tdb_claims r = {| c_email := u_email u; c_username := u_username u;
                            c_group_id := group_id; c_user_email_invited := email_invited |} /\
          tdb_used_at r = None /\
          tdb_expire_datetime r = (if d =? 0 then st_clock s + minutes 10 else st_clock s + d).
Proof.
  intros Hf. unfold wrap_user_db_data_into_token.
  rewrite (create_token_ok settings _ (Some d) subject s Hf).
  match goal with |- exists r, (_, set_tokens _ (_ ++ [?R])) = _ /\ _ => exists R end.
  split; [reflexivity |]. repeat split.
Qed.

(** [invite_user] on a registered email rejects with 403 "This user
    already exist" and changes nothing. On an email no user has (and no
    failing write) it answers RUNNING after storing one unused USER_INVITE
    token whose [email] and [username] claims are the inviter's, whose
    [user_email_invited] claim is the invited email and which names no
    group. *)
Theorem invite_user_spec (settings : Settings) (email : string) (w : UserTokenWrapper)
    (s : Store) :
  (is_Some (st_users s !! email) ->
   invite_user settings email w s = (inl (HTTPException 403 "This user already exist"), s)) /\
  (st_users s !! email = None -> st_fail_at s = None ->
   exists r, invite_user settings email w s
             = (inr RUNNING, set_tokens (bump_writes s) (st_tokens s ++ [r])) /\
           tdb_subject r = USER_INVITE /\
           tdb_claims r = {| c_email := u_email (w_user w); c_username := u_username (w_user w);
                             c_group_id := None; c_user_email_invited := Some email |} /\
           tdb_used_at r = None).
Proof.
  unfold invite_user, try_catch, bind. rewrite get_user_by_email_eq.
  split.
  - intros [u Hu]. rewrite Hu. reflexivity.
  - intros Hu Hf. rewrite Hu. cbn -[wrap_user_db_data_into_token].
    destruct (wrap_ok settings (w_user w) USER_INVITE None (Some email)
                (minutes (USER_INVITE_TOKEN_EXPIRE_MINUTES settings)) s Hf)
      as (r & Hw & Hs & Hc & Hn & _).
    rewrite Hw. exists r. repeat split; assumption.
Qed.

(** [recover] rejects an email no user has and a registered email given
    with another username alike, with 404 "This user doesn't exist" and no
    change (the answer does not tell which check failed). For a matching
    email and username (and no failing write) it answers RUNNING after
    storing one unused RECOVER token for that user, with no group and no
    invited email, expiring 24 hours after [utcnow()]. *)
Theorem recover_spec (settings : Settings) (email username : string) (s : Store) :
  (st_users s !! email = None ->
   recover settings email username s = (inl (HTTPException 404 "This user doesn't exist"), s)) /\
  (forall u, st_users s !! email = Some u -> u_username u <> username ->
   recover settings email username s = (inl (HTTPException 404 "This user doesn't exist"), s)) /\
  (forall u, st_users s !! email = Some u -> u_username u = username -> st_fail_at s = None ->
   exists r, recover settings email username s
             = (inr RUNNING, set_tokens (bump_writes s) (st_tokens s ++ [r])) /\
           tdb_subject r = RECOVER /\
           tdb_claims r = {| c_email := u_email u; c_username := u_username u;
                             c_group_id := None; c_user_email_invited := None |} /\
           tdb_used_at r = None /\
           tdb_expire_datetime r = st_clock s + minutes (60 * 24)).
Proof.
  unfold recover, bind. rewrite get_user_by_email_eq.
  split; [intros Hu; rewrite Hu; reflexivity |].
  split.
  - intros u Hu Hn. rewrite Hu. apply String.eqb_neq in Hn. rewrite Hn. reflexivity.
  - intros u Hu Hn Hf. rewrite Hu. subst username. rewrite String.eqb_refl.
    destruct (wrap_ok settings u RECOVER None None (minutes (60 * 24 * 1)) s Hf)
      as (r & Hw & Hs & Hc & Hused & He).
    rewrite Hw. exists r. repeat split; try assumption.
    all: rewrite He; reflexivity.
Qed.

(* ------------------------------------------------------------------ *)
(** ** Redeeming tokens, leaving and reading groups *)

Lemma update_user_ok (u : User) (upd : UserUpdate) (s : Store) :
  st_fail_at s = None ->
  update_user u upd s =
  (inr (apply_user_update u upd),
   set_users (bump_writes s) (<[u_email u := apply_user_update u upd]> (st_users s))).
Proof.
  intros Hf. unfold update_user. rewrite (bind_ok _ _ s tt _ (db_write_ok _ s Hf)). reflexivity.
Qed.

Lemma update_token_ok (tok : Jwt) (now : Z) (s : Store) :
  st_fail_at s = None ->
  update_token tok now s =
  (inr tt, set_tokens (bump_writes s) (map (mark_used tok now) (st_tokens s))).
Proof. intros Hf. unfold update_token. apply db_write_ok. exact Hf. Qed.

Lemma utcnow_eq (s : Store) : utcnow s = (inr (st_clock s), s).
Proof. reflexivity. Qed.

Lemma same_user_refl (u : UserBase) : same_user u u = true.
Proof. apply String.eqb_refl. Qed.

Lemma add_to_role_has (l : list UserBase) (u : UserBase) :
  existsb (same_user u) (add_to_role l u) = true.
Proof.
  unfold add_to_role. destruct (existsb (same_user u) l) eqn:E; [exact E |].
  rewrite existsb_app. cbn. rewrite same_user_refl. apply orb_true_r.
Qed.

Ltac step_ok H := rewrite (bind_ok _ _ _ _ _ H); cbv beta.

(** [activate], for the token record [get_token] finds for the caller's
    token: another subject than ACTIVATE gives 403 "Invalid activation";
    a used ACTIVATE token gives 403 "Token has expired", both with no
    change. An unused ACTIVATE token (and no failing write) stores the
    caller's user record with [is_active] set and everything else as it
    was, returns that record, and marks the token used; the groups are
    untouched. *)
Theorem activate_spec (w : UserTokenWrapper) (s : Store) (r : TokenDB)
    (Hfound : find_token (w_token w) (st_tokens s) = Some r) :
  let u' := {| u_email := u_email (w_user w); u_username := u_username (w_user w);
               u_is_active := true; u_password := u_password (w_user w) |} in
  (tdb_subject r <> ACTIVATE ->
   activate w s = (inl (HTTPException 403 "Invalid activation"), s)) /\
  (tdb_subject r = ACTIVATE -> truthy_dt (tdb_used_at r) = true ->
   activate w s = (inl (HTTPException 403 "Token has expired"), s)) /\
  (tdb_subject r = ACTIVATE -> tdb_used_at r = None -> st_fail_at s = None ->
   exists s', activate w s = (inr u', s') /\ st_users s' !! u_email (w_user w) = Some u' /\
              consumed_as (w_token w) ACTIVATE s' /\ st_groups s' = st_groups s).
Proof.
  intros u'. unfold activate. step_ok (get_token_db_found _ _ _ Hfound).
  split; [intros Hs; (rewrite bool_decide_false by exact Hs); reflexivity |].
  split; [intros Hs Hu; (rewrite bool_decide_true by exact Hs); rewrite Hu; reflexivity |].
  intros Hs Hu Hf. rewrite bool_decide_true by exact Hs. rewrite Hu. cbn [truthy_dt negb].
  step_ok (update_user_ok (w_user w) SetActive s Hf).
  step_ok (utcnow_eq (set_users (bump_writes s)
                        (<[u_email (w_user w) := apply_user_update (w_user w) SetActive]>
                           (st_users s)))).
  lazymatch goal with
  | |- context [bind (update_token ?t ?n) _ ?s1] => step_ok (update_token_ok t n s1 Hf)
  end.
  eexists. split; [reflexivity |]. split; [apply lookup_insert_eq |].
  split; [| reflexivity].
  rewrite <- Hs. eapply (update_token_consumes _ r (st_clock s)
                          (set_users (bump_writes s) _) _ tt); [exact Hfound |].
  apply update_token_ok. exact Hf.
Qed.

Lemma activate_spec_witness :
  find_token (session dave) (st_tokens s_act) = Some r_act /\
  exists s', activate (wrapper dave) s_act
             = (inr {| u_email := "dave@x.io"; u_username := "dave"; u_is_active := true;
                       u_password := "pw" |}, s') /\
             consumed_as (session dave) ACTIVATE s'.
Proof.
  assert (H : find_token (session dave) (st_tokens s_act) = Some r_act)
    by (vm_compute; reflexivity).
  split; [exact H |].
  destruct (activate_spec (wrapper dave) s_act r_act H) as (_ & _ & H3).
  destruct (H3 eq_refl eq_refl eq_refl) as (s' & Ha & _ & Hc & _).
  exists s'. split; [exact Ha | exact Hc].
Defined.

(** [change_password], for the token record [get_token] finds for the
    caller's token: another subject than RECOVER gives 403 "Invalid
    recovery"; a used RECOVER token gives 403 "Token has expired", both
    with no change. An unused RECOVER token (and no failing write) stores
    the caller's user record with the new password and everything else as
    it was, returns that record, and marks the token used; the groups are
    untouched. *)
Theorem change_password_spec (w : UserTokenWrapper) (password : string) (s : Store)
    (r : TokenDB) (Hfound : find_token (w_token w) (st_tokens s) = Some r) :
  let u' := {| u_email := u_email (w_user w); u_username := u_username (w_user w);
               u_is_active := u_is_active (w_user w); u_password := password |} in
  (tdb_subject r <> RECOVER ->
   change_password w password s = (inl (HTTPException 403 "Invalid recovery"), s)) /\
  (tdb_subject r = RECOVER -> truthy_dt (tdb_used_at r) = true ->
   change_password w password s = (inl (HTTPException 403 "Token has expired"), s)) /\
  (tdb_subject r = RECOVER -> tdb_used_at r = None -> st_fail_at s = None ->
   exists s', change_password w password s = (inr u', s') /\
              st_users s' !! u_email (w_user w) = Some u' /\
              consumed_as (w_token w) RECOVER s' /\ st_groups s' = st_groups s).
Proof.
  intros u'. unfold change_password. step_ok (get_token_db_found _ _ _ Hfound).
  split; [intros Hs; (rewrite bool_decide_false by exact Hs); reflexivity |].
  split; [intros Hs Hu; (rewrite bool_decide_true by exact Hs); rewrite Hu; reflexivity |].
  intros Hs Hu Hf. rewrite bool_decide_true by exact Hs. rewrite Hu. cbn [truthy_dt negb].
  step_ok (update_user_ok (w_user w) (SetPassword password) s Hf).
  step_ok (utcnow_eq (set_users (bump_writes s)
                        (<[u_email (w_user w) := apply_user_update (w_user w)
                                                   (SetPassword password)]> (st_users s)))).
  lazymatch goal with
  | |- context [bind (update_token ?t ?n) _ ?s1] => step_ok (update_token_ok t n s1 Hf)
  end.
  eexists. split; [reflexivity |]. split; [apply lookup_insert_eq |].
  split; [| reflexivity].
  rewrite <- Hs. eapply (update_token_consumes _ r (st_clock s)
                          (set_users (bump_writes s) _) _ tt); [exact Hfound |].
  apply update_token_ok. exact Hf.
Qed.

Lemma change_password_spec_witness :
  find_token tok_rec (st_tokens s_rec) = Some r_rec /\
  exists s', change_password {| w_user := dave; w_token := tok_rec |} "new" s_rec
             = (inr {| u_email := "dave@x.io"; u_username := "dave"; u_is_active := true;
                       u_password := "new" |}, s') /\
             consumed_as tok_rec RECOVER s'.
Proof.
  assert (H : find_token tok_rec (st_tokens s_rec) = Some r_rec)
    by (vm_compute; reflexivity).
  split; [exact H |].
  destruct (change_password_spec {| w_user := dave; w_token := tok_rec |} "new" s_rec r_rec H)
    as (_ & _ & H3).
  destruct (H3 eq_refl eq_refl eq_refl) as (s' & Ha & _ & Hc & _).
  exists s'. split; [exact Ha | exact Hc].
Defined.

Lemma get_group_by_id_missing (gid : string) (s : Store) :
  st_groups s !! gid = None -> get_group_by_id gid s = (inl (NotFound "group"), s).
Proof. intros H. unfold get_group_by_id, bind, gets. cbn. rewrite H. reflexivity. Qed.

(** [join] of [group.py], for the token record [get_token] finds for the
    invitation: when the caller's e-mail differs from the invitation
    user's, 403 "This user was not invited"; otherwise a used invitation
    gives 403 "Invitation token already used", and a token with no group
    id, or whose group is not stored, gives "group" not found, all with
    no change. When the group is stored (and no write fails) the updated
    group is stored and returned with its id: the caller is a co-owner of
    it for a GROUP_INVITE_CO_OWNER token and a member for any other
    subject, the owner is unchanged, and the invitation is marked used. *)
Theorem join_spec (ui uc : UserTokenWrapper) (s : Store) (r : TokenDB)
    (Hfound : find_token (w_token ui) (st_tokens s) = Some r) :
  let ub := user_base (w_user uc) in
  (u_email (w_user uc) <> u_email (w_user ui) ->
   join ui uc s = (inl (HTTPException 403 "This user was not invited"), s)) /\
  (u_email (w_user uc) = u_email (w_user ui) ->
   (truthy_dt (tdb_used_at r) = true ->
    join ui uc s = (inl (HTTPException 403 "Invitation token already used"), s)) /\
   (tdb_used_at r = None -> c_group_id (tdb_claims r) = None ->
    join ui uc s = (inl (NotFound "group"), s)) /\
   (forall gid, tdb_used_at r = None -> c_group_id (tdb_claims r) = Some gid ->
    st_groups s !! gid = None -> join ui uc s = (inl (NotFound "group"), s)) /\
   (forall gid g, tdb_used_at r = None -> c_group_id (tdb_claims r) = Some gid ->
    st_groups s !! gid = Some g -> st_fail_at s = None ->
    exists s' g', join ui uc s = (inr (g', gid), s') /\ st_groups s' !! gid = Some g' /\
      g_owner g' = g_owner g /\
      (tdb_subject r = GROUP_INVITE_CO_OWNER -> user_is_co_owner g' ub = true) /\
      (tdb_subject r <> GROUP_INVITE_CO_OWNER -> user_is_member g' ub = true) /\
      consumed_as (w_token ui) (tdb_subject r) s')).
Proof.
  intros ub. unfold join.
  split; [intros Hne; apply String.eqb_neq in Hne; rewrite Hne; reflexivity |].
  intros Heq. apply String.eqb_eq in Heq. rewrite Heq.
  step_ok (get_token_db_found _ _ _ Hfound).
  split; [intros Hu; rewrite Hu; reflexivity |].
  split; [intros Hu Hg; rewrite Hu, Hg; reflexivity |].
  split.
  { intros gid Hu Hg Hmiss. rewrite Hu, Hg. cbn [truthy_dt].
    unfold bind at 1. rewrite (get_group_by_id_missing _ _ Hmiss). reflexivity. }
  intros gid g Hu Hg Hgs Hf. rewrite Hu, Hg. cbn [truthy_dt].
  step_ok (get_group_by_id_found _ _ _ Hgs).
  set (upd := if bool_decide (tdb_subject r = GROUP_INVITE_CO_OWNER)
              then AddCoOwner (user_base (w_user uc)) else AddMember (user_base (w_user uc))).
  assert (Hup : update_group gid g upd s =
                (inr (apply_group_update g upd),
                 set_groups (bump_writes s) (<[gid := apply_group_update g upd]> (st_groups s)))).
  { unfold update_group, bind. rewrite db_write_ok by exact Hf. reflexivity. }
  step_ok Hup.
  lazymatch goal with
  | |- context [bind utcnow _ ?s1] => step_ok (utcnow_eq s1)
  end.
  lazymatch goal with
  | |- context [bind (update_token ?t ?n) _ ?s1] => step_ok (update_token_ok t n s1 Hf)
  end.
  eexists _, (apply_group_update g upd). split; [reflexivity |].
  split; [cbn; apply lookup_insert_eq |].
  split; [unfold upd; destruct (bool_decide _); reflexivity |].
  split; [intros Hs; unfold upd; rewrite bool_decide_true by exact Hs;
          apply add_to_role_has |].
  split; [intros Hs; unfold upd; rewrite bool_decide_false by exact Hs;
          apply add_to_role_has |].
  eapply (update_token_consumes _ r _ (set_groups (bump_writes s) _) _ tt);
    [exact Hfound |].
  apply update_token_ok. exact Hf.
Qed.

Lemma join_spec_witness :
  find_token tok_member (st_tokens s_inv1) = Some r_member /\
  exists s' g', join {| w_user := dave; w_token := tok_member |} (wrapper dave) s_inv1
                = (inr (g', "g1"), s') /\
                user_is_member g' (user_base dave) = true /\
                consumed_as tok_member GROUP_INVITE_MEMBER s'.
Proof.
  assert (H : find_token tok_member (st_tokens s_inv1) = Some r_member)
    by (vm_compute; reflexivity).
  split; [exact H |].
  destruct (join_spec {| w_user := dave; w_token := tok_member |} (wrapper dave) s_inv1
              r_member H) as (_ & H2).
  destruct (H2 eq_refl) as (_ & _ & _ & H5).
  assert (Hg : exists g, st_groups s_inv1 !! "g1" = Some g)
    by (eexists; vm_compute; reflexivity).
  destruct Hg as [g Hg].
  destruct (H5 "g1" g eq_refl eq_refl Hg eq_refl) as (s' & g' & Hj & _ & _ & _ & Hm & Hc).
  exists s', g'. split; [exact Hj |]. split; [apply Hm; discriminate | exact Hc].
Defined.

(** [join_via_invitation] of [user.py], for the token record [get_token]
    finds for the invitation: a used token gives 403 "Invitation token
    already used", and a token whose invited e-mail is not the caller's
    gives 403 "This user was not invited", both with no change. Otherwise
    (and with no failing write) it returns the caller's user record and
    marks the token used, whatever the token's subject, and changes no
    user and no group. *)
Theorem join_via_invitation_spec (ui uc : UserTokenWrapper) (s : Store) (r : TokenDB)
    (Hfound : find_token (w_token ui) (st_tokens s) = Some r) :
  (truthy_dt (tdb_used_at r) = true ->
   join_via_invitation ui uc s
   = (inl (HTTPException 403 "Invitation token already used"), s)) /\
  (tdb_used_at r = None -> c_user_email_invited (tdb_claims r) <> Some (u_email (w_user uc)) ->
   join_via_invitation ui uc s = (inl (HTTPException 403 "This user was not invited"), s)) /\
  (tdb_used_at r = None -> c_user_email_invited (tdb_claims r) = Some (u_email (w_user uc)) ->
   st_fail_at s = None ->
   exists s', join_via_invitation ui uc s = (inr (w_user uc), s') /\
              consumed_as (w_token ui) (tdb_subject r) s' /\
              st_users s' = st_users s /\ st_groups s' = st_groups s).
Proof.
  unfold join_via_invitation. step_ok (get_token_db_found _ _ _ Hfound).
  split; [intros Hu; rewrite Hu; reflexivity |].
  split.
  { intros Hu Hne. rewrite Hu. cbn [truthy_dt negb].
    rewrite bool_decide_false by (intros E; apply Hne; symmetry; exact E). reflexivity. }
  intros Hu Heq Hf. rewrite Hu. cbn [truthy_dt negb].
  rewrite bool_decide_true by (symmetry; exact Heq).
  step_ok (utcnow_eq s).
  step_ok (update_token_ok (tdb_token r) (st_clock s) s Hf).
  eexists. split; [reflexivity |].
  split; [| split; reflexivity].
  eapply (update_token_consumes _ r _ s _ tt); [exact Hfound |].
  apply update_token_ok. exact Hf.
Qed.

Lemma join_via_invitation_spec_witness :
  find_token tok_member (st_tokens s_inv1) = Some r_member /\
  exists s', join_via_invitation {| w_user := dave; w_token := tok_member |} (wrapper dave)
               s_inv1 = (inr dave, s') /\
             consumed_as tok_member GROUP_INVITE_MEMBER s'.
Proof.
  assert (H : find_token tok_member (st_tokens s_inv1) = Some r_member)
    by (vm_compute; reflexivity).
  split; [exact H |].
  destruct (join_via_invitation_spec {| w_user := dave; w_token := tok_member |}
              (wrapper dave) s_inv1 r_member H) as (_ & _ & H3).
  destruct (H3 eq_refl eq_refl eq_refl) as (s' & Hj & Hc & _).
  exists s'. split; [exact Hj | exact Hc].
Defined.

(** [leave] of [group.py]: a group id with no stored group gives "group"
    not found, and a caller holding no role in the group gives 403 "User
    is not in the group", both with no change. A caller in the group
    (with no failing write) gets COMPLETED and the group is stored with
    the caller removed from the co-owners and the members; the owner
    field is never changed, so an owner who leaves stays the owner. The
    tokens are untouched. *)
Theorem leave_spec (gid : string) (w : UserTokenWrapper) (s : Store) :
  let ub := user_base (w_user w) in
  (st_groups s !! gid = None -> leave gid w s = (inl (NotFound "group"), s)) /\
  (forall g, st_groups s !! gid = Some g -> user_in_group g ub = false ->
   leave gid w s = (inl (HTTPException 403 "User is not in the group"), s)) /\
  (forall g, st_groups s !! gid = Some g -> user_in_group g ub = true ->
   st_fail_at s = None ->
   exists s', leave gid w s = (inr COMPLETED, s') /\
              st_groups s' !! gid = Some (remove_user g ub) /\
              user_is_co_owner (remove_user g ub) ub = false /\
              user_is_member (remove_user g ub) ub = false /\
              g_owner (remove_user g ub) = g_owner g /\
              st_tokens s' = st_tokens s).
Proof.
  intros ub. unfold leave.
  split; [intros Hm; unfold bind at 1; rewrite (get_group_by_id_missing _ _ Hm);
          reflexivity |].
  split; [intros g Hg Hn; step_ok (get_group_by_id_found _ _ _ Hg); fold ub; rewrite Hn;
          reflexivity |].
  intros g Hg Hin Hf. step_ok (get_group_by_id_found _ _ _ Hg). fold ub. rewrite Hin.
  unfold leave_group, bind at 1. rewrite db_write_ok by exact Hf. cbv beta.
  eexists. split; [reflexivity |].
  split; [cbn; apply lookup_insert_eq |].
  split; [apply filter_out_not_exists |].
  split; [apply filter_out_not_exists |].
  split; reflexivity.
Qed.

Lemma leave_spec_witness :
  exists g, st_groups s_inv1 !! "g1" = Some g /\ user_in_group g (user_base alice) = true /\
  exists s', leave "g1" (wrapper alice) s_inv1 = (inr COMPLETED, s') /\
             st_groups s' !! "g1" = Some (remove_user g (user_base alice)) /\
             user_is_owner (remove_user g (user_base alice)) (user_base alice) = true.
Proof.
  assert (Hg : exists g, st_groups s_inv1 !! "g1" = Some g)
    by (eexists; vm_compute; reflexivity).
  destruct Hg as [g Hg]. exists g.
  assert (Hin : user_in_group g (user_base alice) = true).
  { revert Hg. vm_compute. intros Hg. injection Hg as <-. reflexivity. }
  split; [exact Hg |]. split; [exact Hin |].
  destruct (leave_spec "g1" (wrapper alice) s_inv1) as (_ & _ & H3).
  destruct (H3 g Hg Hin eq_refl) as (s' & Hl & Hs & _).
  exists s'. split; [exact Hl |]. split; [exact Hs |].
  revert Hg. vm_compute. intros Hg. injection Hg as <-. reflexivity.
Defined.


(* ------------------------------------------------------------------ *)
(** ** What a request never removes *)

Lemma ro_bind {A B} (m : M A) (k : A -> M B) :
  read_only m -> (forall a, read_only (k a)) -> read_only (bind m k).
Proof.
  intros Hm Hk s. unfold bind. specialize (Hm s).
  destruct (m s) as [[e | a] s'] eqn:E; cbn in *; [exact Hm |]. rewrite Hk. exact Hm.
Qed.

Lemma ro_ret {A} (a : A) : read_only (ret a).
Proof. intros s. reflexivity. Qed.

Lemma ro_raise {A} (e : Exc) : read_only (A := A) (raise e).
Proof. intros s. reflexivity. Qed.

Lemma ro_gets {A} (f : Store -> A) : read_only (gets f).
Proof. intros s. reflexivity. Qed.

Ltac ro_auto :=
  unfold utcnow, http403, http404 in *;
  repeat match goal with
         | |- read_only (bind _ _) => apply ro_bind; [| intros ?]
         | |- read_only (ret _) => apply ro_ret
         | |- read_only (raise _) => apply ro_raise
         | |- read_only (gets _) => apply ro_gets
         | |- read_only (match ?x with _ => _ end) => destruct x
         end.

Lemma ro_utcnow : read_only utcnow.
Proof. ro_auto. Qed.

Lemma ro_get_user_by_email (e : string) : read_only (get_user_by_email e).
Proof. unfold get_user_by_email. ro_auto. Qed.

Lemma ro_get_group_by_id (gid : string) : read_only (get_group_by_id gid).
Proof. unfold get_group_by_id. ro_auto. Qed.

Lemma ro_get_token_db (t : Jwt) : read_only (get_token_db t).
Proof. unfold get_token_db. ro_auto. Qed.

Lemma ro_get_current_user (settings : Settings) (t : Jwt) :
  read_only (get_current_user settings t).
Proof.
  unfold get_current_user. ro_auto.
  all: first [apply ro_get_user_by_email | apply ro_ret].
Qed.

Lemma ro_get_user_from_invitation (settings : Settings) (t : Jwt) :
  read_only (get_user_from_invitation settings t).
Proof.
  unfold get_user_from_invitation. ro_auto.
  all: first [apply ro_get_user_by_email | apply ro_ret].
Qed.

Create HintDb read_only.
#[export] Hint Resolve ro_ret ro_raise ro_gets ro_utcnow ro_get_user_by_email
  ro_get_group_by_id ro_get_token_db ro_get_current_user ro_get_user_from_invitation
  : read_only.

Lemma ro_inv {A} (m : M A) (s s' : Store) (x : Exc + A) :
  read_only m -> m s = (x, s') -> s' = s.
Proof. intros H E. specialize (H s). rewrite E in H. exact H. Qed.

Lemma get_group_by_id_inv (gid : string) (s s' : Store) (g : Group) :
  get_group_by_id gid s = (inr g, s') -> s' = s /\ st_groups s !! gid = Some g.
Proof.
  unfold get_group_by_id, bind, gets. cbn.
  destruct (st_groups s !! gid); cbv; intros H; now inversion H.
Qed.

Lemma rec_le_refl (r : TokenDB) : rec_le r r.
Proof. unfold rec_le. repeat split; auto. Qed.

Lemma rec_le_trans (r1 r2 r3 : TokenDB) : rec_le r1 r2 -> rec_le r2 r3 -> rec_le r1 r3.
Proof.
  intros (? & ? & ? & ? & ? & ?) (? & ? & ? & ? & ? & ?).
  repeat split; try congruence; auto.
Qed.

Lemma Forall2_rec_le_refl (l : list TokenDB) : Forall2 rec_le l l.
Proof. induction l; constructor; auto using rec_le_refl. Qed.

Lemma Forall2_rec_le_trans (l1 l2 l3 : list TokenDB) :
  Forall2 rec_le l1 l2 -> Forall2 rec_le l2 l3 -> Forall2 rec_le l1 l3.
Proof.
  intros H12. revert l3. induction H12 as [| x y l1 l2 Hxy _ IH]; intros l3 H23;
    inversion H23; subst; constructor; eauto using rec_le_trans.
Qed.

Lemma mark_used_rec_le (t : Jwt) (now : Z) (r : TokenDB) : rec_le r (mark_used t now r).
Proof.
  unfold mark_used. case_bool_decide; [| apply rec_le_refl].
  unfold rec_le. cbn. repeat split; auto.
Qed.

Lemma evolves_same (s s' : Store) :
  st_tokens s' = st_tokens s -> st_groups s' = st_groups s -> st_users s' = st_users s ->
  evolves s s'.
Proof.
  intros Ht Hg Hu. split; [| split].
  - exists (st_tokens s), []. rewrite app_nil_r. split; [exact Ht | apply Forall2_rec_le_refl].
  - intros gid g H. exists g. rewrite Hg. auto.
  - intros e H. rewrite Hu. exact H.
Qed.

Lemma evolves_refl (s : Store) : evolves s s.
Proof. apply evolves_same; reflexivity. Qed.

Lemma evolves_trans (s1 s2 s3 : Store) : evolves s1 s2 -> evolves s2 s3 -> evolves s1 s3.
Proof.
  intros ((l1 & l2 & H1 & F1) & G1 & U1) ((k1 & k2 & H2 & F2) & G2 & U2).
  split; [| split].
  - rewrite H1 in F2. apply Forall2_app_inv_l in F2 as (ka & kb & Fa & Fb & ->).
    exists ka, (kb ++ k2). split; [rewrite H2, <- app_assoc; reflexivity |].
    eapply Forall2_rec_le_trans; eassumption.
  - intros gid g H. destruct (G1 gid g H) as (g' & H' & O').
    destruct (G2 gid g' H') as (g'' & H'' & O''). exists g''. split; congruence.
  - intros e H. auto.
Qed.

Lemma evolves_append (s : Store) (r : TokenDB) :
  evolves s (set_tokens s (st_tokens s ++ [r])).
Proof.
  split; [| split].
  - exists (st_tokens s), [r]. split; [reflexivity | apply Forall2_rec_le_refl].
  - intros gid g H. exists g. auto.
  - intros e H. exact H.
Qed.

Lemma evolves_mark (s : Store) (t : Jwt) (now : Z) :
  evolves s (set_tokens s (map (mark_used t now) (st_tokens s))).
Proof.
  split; [| split].
  - exists (map (mark_used t now) (st_tokens s)), []. rewrite app_nil_r.
    split; [reflexivity |].
    induction (st_tokens s); constructor; auto using mark_used_rec_le.
  - intros gid g H. exists g. auto.
  - intros e H. exact H.
Qed.

Lemma evolves_users_insert (s : Store) (e : string) (u : User) :
  evolves s (set_users s (<[e := u]> (st_users s))).
Proof.
  split; [| split].
  - exists (st_tokens s), []. rewrite app_nil_r. split; [reflexivity | apply Forall2_rec_le_refl].
  - intros gid g H. exists g. auto.
  - intros e' [v Hv]. cbn. destruct (decide (e = e')) as [<- | Hne].
    + rewrite lookup_insert_eq. eauto.
    + rewrite lookup_insert_ne by exact Hne. eauto.
Qed.

Lemma evolves_groups_insert (s : Store) (gid : string) (g g' : Group) :
  st_groups s !! gid = Some g -> g_owner g' = g_owner g ->
  evolves s (set_groups s (<[gid := g']> (st_groups s))).
Proof.
  intros Hg Ho. split; [| split].
  - exists (st_tokens s), []. rewrite app_nil_r. split; [reflexivity | apply Forall2_rec_le_refl].
  - intros gid0 g0 H0. cbn. destruct (decide (gid = gid0)) as [<- | Hne].
    + rewrite Hg in H0. injection H0 as <-. exists g'. split; [apply lookup_insert_eq | exact Ho].
    + exists g0. rewrite lookup_insert_ne by exact Hne. auto.
  - intros e H. exact H.
Qed.

Lemma ev_bind {A B} (m : M A) (k : A -> M B) (s : Store) :
  evolves s (snd (m s)) ->
  (forall a s', m s = (inr a, s') -> evolves s' (snd (k a s'))) ->
  evolves s (snd (bind m k s)).
Proof.
  intros Hm Hk. unfold bind.
  destruct (m s) as [[e | a] s'] eqn:E; cbn in *; [exact Hm |].
  eapply evolves_trans; [exact Hm | apply Hk; reflexivity].
Qed.

Lemma ev_try_catch {A} (m : M A) (h : Exc -> M A) (s : Store) :
  evolves s (snd (m s)) ->
  (forall e s', m s = (inl e, s') -> evolves s' (snd (h e s'))) ->
  evolves s (snd (try_catch m h s)).
Proof.
  intros Hm Hh. unfold try_catch.
  destruct (m s) as [[e | a] s'] eqn:E; cbn in *; [| exact Hm].
  eapply evolves_trans; [exact Hm | apply Hh; reflexivity].
Qed.

Lemma ev_read_only {A} (m : M A) (s : Store) : read_only m -> evolves s (snd (m s)).
Proof. intros H. rewrite H. apply evolves_refl. Qed.

Lemma ev_db_write (f : Store -> Store) (s : Store) :
  evolves (bump_writes s) (f (bump_writes s)) -> evolves s (snd (db_write f s)).
Proof.
  intros Hf. unfold db_write.
  assert (Hb : evolves s (bump_writes s)) by (apply evolves_same; reflexivity).
  destruct (match st_fail_at s with Some k => Nat.eqb k (st_writes s) | None => false end);
    cbn; [exact Hb | eapply evolves_trans; [exact Hb | exact Hf]].
Qed.

Lemma ev_save_token (r : TokenDB) (s : Store) : evolves s (snd (save_token r s)).
Proof. unfold save_token. apply ev_db_write. apply evolves_append. Qed.

Lemma ev_update_token (t : Jwt) (now : Z) (s : Store) :
  evolves s (snd (update_token t now s)).
Proof. unfold update_token. apply ev_db_write. apply evolves_mark. Qed.

Lemma ev_update_user (u : User) (upd : UserUpdate) (s : Store) :
  evolves s (snd (update_user u upd s)).
Proof.
  unfold update_user. apply ev_bind.
  - apply ev_db_write. apply evolves_users_insert.
  - intros a s' _. apply evolves_refl.
Qed.

Lemma ev_update_group (gid : string) (g : Group) (upd : GroupUpdate) (s : Store) :
  st_groups s !! gid = Some g -> evolves s (snd (update_group gid g upd s)).
Proof.
  intros Hg. unfold update_group. apply ev_bind.
  - apply ev_db_write. eapply evolves_groups_insert; [exact Hg | destruct upd; reflexivity].
  - intros a s' _. apply evolves_refl.
Qed.

Lemma ev_leave_group (gid : string) (g : Group) (u : UserBase) (s : Store) :
  st_groups s !! gid = Some g -> evolves s (snd (leave_group gid g u s)).
Proof.
  intros Hg. unfold leave_group. apply ev_db_write.
  eapply evolves_groups_insert; [exact Hg | reflexivity].
Qed.

Ltac ev_step :=
  match goal with
  | |- evolves ?s (snd (update_group _ _ _ ?s)) => eapply ev_update_group; eassumption
  | |- evolves ?s (snd (leave_group _ _ _ ?s)) => eapply ev_leave_group; eassumption
  | |- evolves ?s (snd (save_token _ ?s)) => apply ev_save_token
  | |- evolves ?s (snd (update_token _ _ ?s)) => apply ev_update_token
  | |- evolves ?s (snd (update_user _ _ ?s)) => apply ev_update_user
  | |- evolves ?s (snd (bind (get_group_by_id ?gid) _ ?s)) =>
      apply ev_bind;
      [ apply ev_read_only, ro_get_group_by_id
      | let g := fresh "g" in let s' := fresh "s" in let E := fresh "E" in
        intros g s' E; apply get_group_by_id_inv in E as [-> ?]; cbv beta ]
  | |- evolves ?s (snd (bind ?m _ ?s)) =>
      apply ev_bind;
      [ first [ apply ev_read_only; solve [eauto with read_only] | idtac ]
      | let a := fresh "a" in let s' := fresh "s" in let E := fresh "E" in
        intros a s' E;
        try (apply (ro_inv m) in E; [subst s' | solve [eauto with read_only]]);
        cbv beta ]
  | |- evolves ?s (snd (try_catch _ _ ?s)) =>
      apply ev_try_catch; [| let e := fresh "e" in let s' := fresh "s" in
                             intros e s' ?; cbv beta]
  | |- evolves ?s (snd (?m ?s)) => apply ev_read_only; solve [eauto with read_only]
  | |- evolves _ _ => apply evolves_refl
  | |- context [let _ := _ in _] => progress cbv zeta
  | |- context [match ?x with _ => _ end] => destruct x eqn:?
  end.

Lemma ev_run_request (settings : Settings) (rq : Request) (s : Store) :
  evolves s (snd (run_request settings rq s)).
Proof.
  destruct rq; cbn [run_request];
    unfold join_request, invite, join, kick, leave, activate, change_password,
      join_via_invitation, recover, invite_user;
    unfold process_invitation, wrap_user_db_data_into_token, create_token, http403, http404;
    repeat ev_step.
Qed.

Lemma reachable_evolves (settings : Settings) (s s' : Store) :
  reachable settings s s' -> evolves s s'.
Proof.
  induction 1 as [s | s s' rq _ IH | s s' clock fail_at _ IH _].
  - apply evolves_refl.
  - eapply evolves_trans; [exact IH | apply ev_run_request].
  - eapply evolves_trans; [exact IH |]. apply evolves_same; reflexivity.
Qed.

(** Along any run of requests, the token collection only grows: the
    records of the earlier store are still its first records, in order,
    with the same claims, subject, token string, creation and expiry
    time, and a [used_at] that was set stays set; new records are
    appended after them. *)
Theorem reachable_tokens_grow (settings : Settings) (s s' : Store)
    (R : reachable settings s s') : tokens_grow s s'.
Proof. exact (proj1 (reachable_evolves settings s s' R)). Qed.

Lemma reachable_tokens_grow_witness :
  reachable cfg s0 (snd (run_request cfg (RqInviteUser "erin@x.io" (session alice)) s0)) /\
  tokens_grow s0 (snd (run_request cfg (RqInviteUser "erin@x.io" (session alice)) s0)) /\
  List.length (st_tokens (snd (run_request cfg (RqInviteUser "erin@x.io" (session alice)) s0)))
  = 1%nat.
Proof.
  assert (R : reachable cfg s0
                (snd (run_request cfg (RqInviteUser "erin@x.io" (session alice)) s0)))
    by (apply reach_request, reach_refl).
  split; [exact R |]. split; [exact (reachable_tokens_grow cfg _ _ R) |].
  vm_compute. reflexivity.
Defined.


